(** * GNSS_TimeSeries_Viewers: strain inversion and time-series tools

    A shallow embedding of
      - [2D_Strain/Strain_Code/hammond_strain.py]  ([strain_sphere], [compute]),
      - [GPS_TOOLS/offsets.py]       ([remove_offsets], [fit_single_offset]),
      - [GPS_TOOLS/grace_ts_functions.py]  ([pair_GPSGRACE]),
    together with the properties the specification states about them.

    Numbers.  Python floats are modelled by an ordered field [F] (exact
    arithmetic) extended with one non-finite value [NaN]; numpy's
    transcendental functions and [numpy.linalg.lstsq] are an interface
    ([numpy]) every statement is generic in.  [numpy.linalg.inv] is the
    inverse of MathComp ([invmx]) and raises on a singular matrix. *)

From HB Require Import structures.
From mathcomp Require Import boot order algebra.
From mathcomp Require Import ring_tactic field_tactic arithmetic_tactic.

Set Implicit Arguments.
Unset Strict Implicit.
Unset Printing Implicit Defensive.

Import Order.TTheory GRing.Theory Num.Theory.
Local Open Scope ring_scope.

(** ** Python values *)

(** What a call produces: a value, or the exception that ended it. *)
Inductive exn := LinAlgError | ValueError | IndexError | NonFinite.

Inductive result (T : Type) := Ok (x : T) | Raise (e : exn).
Arguments Ok {T} x.
Arguments Raise {T} e.

Definition bind {T U : Type} (r : result T) (k : T -> result U) : result U :=
  match r with Ok x => k x | Raise e => Raise e end.

Notation "x <- r ;; k" := (bind r (fun x => k))
  (at level 100, r at next level, right associativity, only parsing).

(** [s[i]] on a Python list or array. *)
Definition getitem {T : Type} (s : seq T) (i : nat) : result T :=
  if nth None (map Some s) i is Some x then Ok x else Raise IndexError.

(** A [for] loop that builds a list, stopping at the first exception. *)
Fixpoint mapM {T U : Type} (f : T -> result U) (s : seq T) : result (seq U) :=
  if s is x :: s' then y <- f x ;; ys <- mapM f s' ;; Ok (y :: ys)
  else Ok [::].

(** Python's [max] and [min] of a sequence: [ValueError] when it is empty. *)
Definition py_max {disp : Order.disp_t} {T : orderType disp} (s : seq T) :
    result T :=
  if s is x :: s' then Ok (foldl Order.max x s') else Raise ValueError.

Definition py_min {disp : Order.disp_t} {T : orderType disp} (s : seq T) :
    result T :=
  if s is x :: s' then Ok (foldl Order.min x s') else Raise ValueError.

Section Float.

Variable F : realFieldType.

(** A float: [np.nan] or a finite number.  Infinities are not told apart
    from [NaN]: a division by zero gives [NaN]. *)
Inductive float := NaN | Fin (x : F).

Definition lift1 (f : F -> F) (a : float) : float :=
  if a is Fin x then Fin (f x) else NaN.

Definition lift2 (f : F -> F -> F) (a b : float) : float :=
  match a, b with Fin x, Fin y => Fin (f x y) | _, _ => NaN end.

Definition fopp := lift1 -%R.
Definition fadd := lift2 +%R.
Definition fsub := lift2 (fun x y => x - y).
Definition fmul := lift2 *%R.

Definition fdiv (a b : float) : float :=
  match a, b with
  | Fin x, Fin y => if y == 0 then NaN else Fin (x / y)
  | _, _ => NaN
  end.

(** [a == b] on floats: false as soon as one side is [np.nan]. *)
Definition feq (a b : float) : bool :=
  match a, b with Fin x, Fin y => x == y | _, _ => false end.

Definition isnan (a : float) : bool := if a is NaN then true else false.

(** The part of numpy the code calls and that the field [F] does not give. *)
Record numpy := Numpy {
  np_pi : F;
  np_sin : F -> F;
  np_cos : F -> F;
  np_sqrt_fn : F -> F;          (* on [0, oo) *)
  np_arccos_fn : F -> F;        (* on [-1, 1] *)
  np_arctan2 : F -> F -> F;
  np_lstsq : forall m n : nat, 'M[F]_(m, n) -> 'cV[F]_m -> 'cV[F]_n
}.

Variable np : numpy.

(** [np.sqrt] and [np.arccos] return [nan] outside their domain. *)
Definition np_sqrt (a : float) : float :=
  if a is Fin x then (if x < 0 then NaN else Fin (np_sqrt_fn np x)) else NaN.

Definition np_arccos (a : float) : float :=
  if a is Fin x then (if `|x| <= 1 then Fin (np_arccos_fn np x) else NaN)
  else NaN.

Definition np_square (a : float) : float := fmul a a.

(** [np.nanmean]: the mean of the entries that are not [nan]; [nan] when
    there is none. *)
Definition finite_values (s : seq float) : seq F :=
  pmap (fun a => if a is Fin x then Some x else None) s.

Definition nanmean (s : seq float) : float :=
  let xs := finite_values s in
  if xs is [::] then NaN else Fin ((\sum_(x <- xs) x) / (size xs)%:R).

End Float.

Arguments NaN {F}.

Notation "a +. b" := (fadd a b) (at level 50, left associativity).
Notation "a -. b" := (fsub a b) (at level 50, left associativity).
Notation "a *. b" := (fmul a b) (at level 40, left associativity).
Notation "a /. b" := (fdiv a b) (at level 40, left associativity).
Notation "-. a" := (fopp a) (at level 35, right associativity).

(** ** [hammond_strain.py]: the spherical strain and rotation solver *)

(** What [strain_sphere] prints: the list holding the collinearity warning
    ["Warning:  Points are collinear. Type=<colin>"]. *)
Inductive message := CollinearWarning (colin : nat).

Section StrainSphere.

Variable F : realFieldType.
Variable np : numpy F.

Local Notation float := (float F).
Local Notation pi := (np_pi np).
Local Notation sin := (np_sin np).
Local Notation cos := (np_cos np).

(** The return list of [strain_sphere], in the order of its [return]. *)
Record outputs (n : nat) := Outputs {
  e_phiphi : float; e_thetaphi : float; e_thetatheta : float;
  omega_r : float; U_theta : float; U_phi : float;
  s_omega_r : float;
  s_e_phiphi : float; s_e_thetaphi : float; s_e_thetatheta : float;
  s_U_theta : float; s_U_phi : float;
  chi2 : float;
  OMEGA : float; THETA_p : float; PHI_p : float;
  s_OMEGA : float; s_THETA_p : float; s_PHI_p : float;
  r_PHITHETA : float;
  u_phi_p : 'rV[F]_n; u_theta_p : 'rV[F]_n
}.

(** [r0 = 6.378e6], the mean equatorial Earth radius. *)
Definition r0 : F := 6378%:R * 1000%:R.

(** The threshold [1e-5] of the collinearity test. *)
Definition eps : F := 10 ^- 5.

(** [v[k]] and [A[i, j]] for an index written in the code; every use is
    in range (the code reads [m[3..5]] only where [G] has six columns). *)
Definition vget (p : nat) (v : 'cV[F]_p) (k : nat) : F :=
  if insub k is Some j then v j 0 else 0.

Definition mget (p q : nat) (A : 'M[F]_(p, q)) (i j : nat) : F :=
  match insub i, insub j with Some a, Some b => A a b | _, _ => 0 end.

(** Lines 144-164: the six model components read off [m]. *)
Record components := Components {
  omega_theta : float; omega_phi : float; c_omega_r : float;
  c_e_phiphi : float; c_e_thetaphi : float; c_e_thetatheta : float
}.

(** Lines 90-93: the number of columns of [G]. *)
Definition ncols (paramsel : int) : nat :=
  if (paramsel != 2) && (paramsel != 1) then 6%N else 3%N.

Definition unpack (paramsel : int) (m : 'cV[F]_(ncols paramsel)) : components :=
  if paramsel == 2 then
    Components NaN NaN NaN (Fin (vget m 0)) (Fin (vget m 1)) (Fin (vget m 2))
  else if paramsel == 1 then
    Components (Fin (vget m 0)) (Fin (vget m 1)) (Fin (vget m 2)) NaN NaN NaN
  else
    Components (Fin (vget m 0)) (Fin (vget m 1)) (Fin (vget m 2))
               (Fin (vget m 3)) (Fin (vget m 4)) (Fin (vget m 5)).

(** Lines 172-199: the parameter uncertainties. *)
Record uncertainties := Uncertainties {
  us_e_phiphi : float; us_e_thetaphi : float; us_e_thetatheta : float;
  us_U_phi : float; us_U_theta : float;
  us_omega_r : float; us_omega_phi : float; us_omega_theta : float
}.

Definition sigma (p : nat) (covm : 'M[F]_p) (k : nat) : float :=
  np_sqrt np (Fin (mget covm k k)).

Definition uncertain (paramsel : int) (covm : 'M[F]_(ncols paramsel)) :
    uncertainties :=
  if paramsel == 2 then
    Uncertainties (sigma covm 0) (sigma covm 1) (sigma covm 2)
                  (Fin 0) (Fin 0) NaN NaN NaN
  else if paramsel == 1 then
    Uncertainties (Fin 0) (Fin 0) (Fin 0)
                  (Fin r0 *. sigma covm 0) (Fin r0 *. sigma covm 1)
                  (sigma covm 2) (sigma covm 1) (sigma covm 0)
  else
    Uncertainties (sigma covm 3) (sigma covm 4) (sigma covm 5)
                  (Fin r0 *. sigma covm 0) (Fin r0 *. sigma covm 1)
                  (sigma covm 2) (sigma covm 1) (sigma covm 0).

(** Lines 208-250: the Euler vector of the solid-body rotation. *)
Record euler := Euler {
  eu_OMEGA : float; eu_THETA_p : float; eu_PHI_p : float;
  eu_s_OMEGA : float; eu_s_THETA_p : float; eu_s_PHI_p : float;
  eu_r_PHITHETA : float
}.

(** A 3 x 3 array of floats and [np.dot] on such arrays. *)
Definition fdot (X Y : nat -> nat -> float) (i j : nat) : float :=
  \big[@fadd F/Fin 0]_(0 <= k < 3) (X i k *. Y k j).

Definition ftr (X : nat -> nat -> float) (i j : nat) : float := X j i.

Definition euler_vector (paramsel : int) (c : components)
    (theta_0 phi_0 : F) (covm : 'M[F]_(ncols paramsel)) : euler :=
  if paramsel != 2 then
    let omega_r := c_omega_r c in
    let omega_phi := omega_phi c in
    let omega_theta := omega_theta c in
    let st := Fin (sin theta_0) in let ct := Fin (cos theta_0) in
    let sp := Fin (sin phi_0) in let cp := Fin (cos phi_0) in
    let OMEGA := np_sqrt np (np_square omega_r +. np_square omega_phi
                             +. np_square omega_theta) in
    let y := omega_r *. ct -. omega_theta *. st in
    let THETA_p := np_arccos np (y /. OMEGA) in
    let A := omega_r *. st *. sp +. omega_theta *. ct *. sp
             +. omega_phi *. cp in
    let B := omega_r *. st *. cp +. omega_theta *. ct *. cp
             -. omega_phi *. sp in
    let PHI_p := lift2 (np_arctan2 np) A B in
    let z := Fin 1 /. np_sqrt np (Fin 1 -. np_square (y /. OMEGA)) in
    let AB := A *. A +. B *. B in
    let J (i j : nat) : float :=
      match i, j with
      | 0%N, 0%N => omega_r /. OMEGA
      | 0%N, 1%N => omega_phi /. OMEGA
      | 0%N, 2%N => omega_theta /. OMEGA
      | 1%N, 0%N => (st /. AB) *. (B *. sp -. A *. cp)
      | 1%N, 1%N => (Fin 1 /. AB) *. (B *. cp +. A *. sp)
      | 1%N, 2%N => (ct /. AB) *. (B *. sp -. A *. cp)
      | 2%N, 0%N => -. (z /. OMEGA)
                    *. (ct -. y *. omega_r /. (OMEGA *. OMEGA))
      | 2%N, 1%N => z *. y *. omega_phi /. (OMEGA *. OMEGA *. OMEGA)
      | 2%N, 2%N => (z /. OMEGA)
                    *. (st +. y *. omega_theta /. (OMEGA *. OMEGA))
      | _, _ => Fin 0
      end in
    let covp (i j : nat) : float :=
      match i, j with
      | 0%N, 0%N => Fin (mget covm 2 2)
      | 0%N, 1%N => Fin (mget covm 2 1)
      | 0%N, 2%N => Fin (mget covm 2 0)
      | 1%N, 0%N => Fin (mget covm 2 1)
      | 1%N, 1%N => Fin (mget covm 1 1)
      | 1%N, 2%N => Fin (mget covm 0 1)
      | 2%N, 0%N => Fin (mget covm 2 0)
      | 2%N, 1%N => Fin (mget covm 0 1)
      | 2%N, 2%N => Fin (mget covm 0 0)
      | _, _ => Fin 0
      end in
    let covE := fdot (fdot J covp) (ftr J) in
    Euler OMEGA THETA_p PHI_p
          (np_sqrt np (covE 0 0)%N) (np_sqrt np (covE 2 2)%N)
          (np_sqrt np (covE 1 1)%N)
          (covE 1 2 /. np_sqrt np (covE 1 1 *. covE 2 2))%N
  else
    Euler NaN NaN NaN NaN NaN NaN NaN.

(** *** The solver proper, for [n] observation sites

    The six input arrays are parallel arrays of one length [n]; rows of
    [d], [covd] and [G] are indexed by ['I_(n + n)]. *)

Section Sites.

Variable n : nat.
Implicit Types phi theta u_phi u_theta s_phi s_theta : 'rV[F]_n.

Local Notation outputs := (outputs n).

(** Row [k] of [G] belongs to site [k // 2]; rows [2 i] and [2 i + 1] are
    the ones the loops of lines 95-125 fill for site [i]. *)
Lemma site_subproof (k : 'I_(n + n)) : (k./2 < n)%N.
Proof. by rewrite ltn_half_double -addnn. Qed.

Definition site (k : 'I_(n + n)) : 'I_n := Ordinal (site_subproof k).

Lemma row_phi_subproof (i : 'I_n) : (i.*2 < n + n)%N.
Proof. by rewrite addnn ltn_double. Qed.

Lemma row_theta_subproof (i : 'I_n) : (i.*2.+1 < n + n)%N.
Proof. by rewrite addnn ltn_Sdouble. Qed.

Definition row_phi (i : 'I_n) : 'I_(n + n) := Ordinal (row_phi_subproof i).
Definition row_theta (i : 'I_n) : 'I_(n + n) :=
  Ordinal (row_theta_subproof i).

(** Lines 60-61: degrees to radians. *)
Definition radians (x : 'rV[F]_n) : 'rV[F]_n := \row_i (x 0 i * pi / 180).

(** [np.mean]. *)
Definition mean (x : 'rV[F]_n) : F := (\sum_i x 0 i) / n%:R.

(** Lines 73-82: the collinearity test; [phi] and [theta] are in radians.
    [resc] holds the residuals of the line fit. *)
Definition resc phi theta : 'cV[F]_n :=
  let dc : 'cV[F]_n := \col_i (90 - theta 0 i) in
  let Gc : 'M[F]_(n, 2) := \matrix_(i, j) (if j == 0 then 1 else phi 0 i) in
  let mc := np_lstsq np Gc dc in
  Gc *m mc - dc.

Definition colin_of (max_resc : F) phi theta : nat :=
  let colin := if max_resc < eps then 1%N else 0%N in
  if [forall i, `|phi 0 i - mean phi| < eps]
     || [forall i, `|theta 0 i - mean theta| < eps] then 2%N else colin.

(** Lines 83-84. *)
Definition warning (colin : nat) : seq message :=
  if (colin == 1%N) || (colin == 2%N) then [:: CollinearWarning colin]
  else [::].

(** Line 88: [d = np.hstack((u_phi.T, u_theta.T))]. *)
Definition dvec u_phi u_theta : 'cV[F]_(n + n) := (row_mx u_phi u_theta)^T.

(** Lines 90-125: the design matrix.  [G_entry] is the value written at
    column [j] of row [2 i] ([second = false]) or [2 i + 1]
    ([second = true]); what the loops do not write stays [0]. *)
Definition G_entry (paramsel : int) (theta_0 del_phi del_theta : F)
    (second : bool) (j : nat) : F :=
  if paramsel != 2 then
    if ~~ second then
      match j with
      | 0%N => - r0
      | 1%N => - r0 * cos theta_0 * del_phi
      | 2%N => r0 * del_theta
      | 3%N => if paramsel != 1 then r0 * sin theta_0 * del_phi else 0
      | 4%N => if paramsel != 1 then r0 * del_theta else 0
      | _ => 0
      end
    else
      match j with
      | 0%N => - r0 * cos theta_0 * del_phi
      | 1%N => r0
      | 2%N => - r0 * sin theta_0 * del_phi
      | 4%N => if paramsel != 1 then r0 * sin theta_0 * del_phi else 0
      | 5%N => if paramsel != 1 then r0 * del_theta else 0
      | _ => 0
      end
  else
    if ~~ second then
      match j with
      | 0%N => r0 * sin theta_0 * del_phi
      | 1%N => r0 * del_theta
      | _ => 0
      end
    else
      match j with
      | 1%N => r0 * sin theta_0 * del_phi
      | 2%N => r0 * del_theta
      | _ => 0
      end.

Definition Gmat (paramsel : int) phi theta : 'M[F]_(n + n, ncols paramsel) :=
  let theta_0 := mean theta in
  let phi_0 := mean phi in
  \matrix_(k, j)
    G_entry paramsel theta_0 (phi 0 (site k) - phi_0)
            (theta 0 (site k) - theta_0) (odd k) j.

(** Line 130. *)
Definition covd s_phi s_theta : 'M[F]_(n + n) :=
  diag_mx (row_mx (map_mx (fun s => s ^+ 2) s_phi)
                  (map_mx (fun s => s ^+ 2) s_theta)).

(** Line 133: [W = np.diag(1./np.diag(covd))]. *)
Definition Wmat (C : 'M[F]_(n + n)) : 'M[F]_(n + n) :=
  diag_mx (\row_k (1 / C k k)).

(** Lines 132-136.  [normal] is the matrix handed to [np.linalg.inv]. *)
Definition GtW (weight : int) p (G : 'M[F]_(n + n, p)) (C : 'M[F]_(n + n)) :
    'M[F]_(p, n + n) :=
  if weight == 1 then G^T *m Wmat C else G^T.

Definition normal (weight : int) p (G : 'M[F]_(n + n, p))
    (C : 'M[F]_(n + n)) : 'M[F]_p :=
  GtW weight G C *m G.

Definition Mmat (weight : int) p (G : 'M[F]_(n + n, p))
    (C : 'M[F]_(n + n)) : 'M[F]_(p, n + n) :=
  invmx (normal weight G C) *m GtW weight G C.

(** Lines 137-253, once [M] is there: everything is a function of [M],
    [G], [covd] and [d]. *)
Definition finish (paramsel : int) (theta_0 phi_0 : F)
    (G : 'M[F]_(n + n, ncols paramsel)) (M : 'M[F]_(ncols paramsel, n + n))
    (C : 'M[F]_(n + n)) (d : 'cV[F]_(n + n)) : outputs :=
  let m := M *m d in
  let dpred := G *m m in
  let u_phi_p := \row_i dpred (row_phi i) 0 in
  let u_theta_p := \row_i dpred (row_theta i) 0 in
  let c := unpack m in
  let U_theta := Fin r0 *. omega_phi c in
  let U_phi := -. Fin r0 *. omega_theta c in
  let covm := M *m C *m M^T in
  let s := uncertain covm in
  let N : F := (n + n)%:R in
  let first_term := np_lstsq np C^T (d - G *m m) in
  let chi2 := ((first_term^T *m (d - G *m m)) 0 0) / N in
  let e := euler_vector c theta_0 phi_0 covm in
  Outputs (c_e_phiphi c) (c_e_thetaphi c) (c_e_thetatheta c) (c_omega_r c)
          U_theta U_phi (us_omega_r s) (us_e_phiphi s) (us_e_thetaphi s)
          (us_e_thetatheta s) (us_U_theta s) (us_U_phi s) (Fin chi2)
          (eu_OMEGA e) (eu_THETA_p e) (eu_PHI_p e) (eu_s_OMEGA e)
          (eu_s_THETA_p e) (eu_s_PHI_p e) (eu_r_PHITHETA e)
          u_phi_p u_theta_p.

(** The weights [1./np.diag(covd)] are finite. *)
Definition finite_weights (weight : int) (C : 'M[F]_(n + n)) : bool :=
  (weight == 1) ==> [forall k, C k k != 0].

(** Lines 128-253: [np.linalg.inv] raises on a singular matrix. *)
Definition solve (weight paramsel : int) phi theta u_phi u_theta
    s_phi s_theta : result outputs :=
  let G := Gmat paramsel phi theta in
  let C := covd s_phi s_theta in
  if ~~ finite_weights weight C then Raise NonFinite
  else if normal weight G C \notin unitmx then Raise LinAlgError
  else Ok (finish (mean theta) (mean phi) G (Mmat weight G C) C
                  (dvec u_phi u_theta)).

(** [strain_sphere]: what it prints, and what it returns or raises.  The
    inputs [phi] and [theta] are in degrees. *)
Definition strain_sphere phi theta u_phi u_theta s_phi s_theta
    (weight paramsel : int) : seq message * result outputs :=
  let theta := radians theta in
  let phi := radians phi in
  match py_max [seq `|resc phi theta i 0| | i <- enum 'I_n] with
  | Raise e => ([::], Raise e)
  | Ok max_resc =>
      (warning (colin_of max_resc phi theta),
       solve weight paramsel phi theta u_phi u_theta s_phi s_theta)
  end.

End Sites.

Arguments r0 : simpl never.
Arguments eps : simpl never.

(** *** [compute]: one solve per Delaunay triangle *)

(** The velocity field: parallel arrays over the stations. *)
Record Velfield := {
  vf_elon : seq F; vf_nlat : seq F;
  vf_e : seq F; vf_n : seq F; vf_se : seq F; vf_sn : seq F
}.

Definition point : Type := F * F.

(** The arguments of one [strain_sphere] call. *)
Record strain_args := StrainArgs {
  a_phi : 'rV[F]_3; a_theta : 'rV[F]_3;
  a_u_phi : 'rV[F]_3; a_u_theta : 'rV[F]_3;
  a_s_phi : 'rV[F]_3; a_s_theta : 'rV[F]_3;
  a_weight : int; a_paramsel : int
}.

(** What [compute] keeps of a triangle, as far as it is computed in
    [hammond_strain.py] itself; the entries [I2nd], [max_shear], [e1], [e2]
    and [v] of its return list are [strain_tensor_toolbox] functions of
    [exx], [exy] and [eyy]. *)
Record triangle_strain := TriangleStrain {
  xcentroid : F; ycentroid : F;
  exx : float; exy : float; eyy : float; rot : float
}.

Definition vec3 (a b c : F) : 'rV[F]_3 := \row_(i < 3) nth 0 [:: a; b; c] i.

(** [np.where(arr == x)] and [np.intersect1d]. *)
Definition np_where_eq (arr : seq F) (x : F) : seq nat :=
  [seq i <- iota 0 (size arr) | nth 0 arr i == x].

Definition intersect1d (a b : seq nat) : seq nat := [seq i <- a | i \in b].

(** [arr[index]] for the index array of a vertex: one station is expected. *)
Definition at_index (arr : seq F) (index : seq nat) : result F :=
  if index is [:: i] then getitem arr i else Raise ValueError.

(** Lines 293-315: the inputs of the solver for one triangle. *)
Definition triangle_inputs (myVelfield : Velfield)
    (tri : point * point * point) : result strain_args :=
  let: (v1, v2, v3) := tri in
  let lookup (v : point) :=
    intersect1d (np_where_eq (vf_elon myVelfield) v.1)
                (np_where_eq (vf_nlat myVelfield) v.2) in
  let index1 := lookup v1 in
  let index2 := lookup v2 in
  let index3 := lookup v3 in
  let phi := vec3 v1.1 v2.1 v3.1 in
  let theta := vec3 v1.2 v2.2 v3.2 in
  let theta := map_mx (fun i => i - 90) theta in
  e1 <- at_index (vf_e myVelfield) index1 ;;
  e2 <- at_index (vf_e myVelfield) index2 ;;
  e3 <- at_index (vf_e myVelfield) index3 ;;
  let u_phi := vec3 e1 e2 e3 in
  n1 <- at_index (vf_n myVelfield) index1 ;;
  n2 <- at_index (vf_n myVelfield) index2 ;;
  n3 <- at_index (vf_n myVelfield) index3 ;;
  let u_theta := vec3 n1 n2 n3 in
  let u_theta := map_mx (fun i => - i) u_theta in
  se1 <- at_index (vf_se myVelfield) index1 ;;
  se2 <- at_index (vf_se myVelfield) index2 ;;
  se3 <- at_index (vf_se myVelfield) index3 ;;
  let s_phi := vec3 se1 se2 se3 in
  sn1 <- at_index (vf_sn myVelfield) index1 ;;
  sn2 <- at_index (vf_sn myVelfield) index2 ;;
  sn3 <- at_index (vf_sn myVelfield) index3 ;;
  let s_theta := vec3 sn1 sn2 sn3 in
  let weight : int := 1 in
  let paramsel : int := 0 in
  Ok (StrainArgs phi theta u_phi u_theta s_phi s_theta weight paramsel).

Definition call_strain_sphere (a : strain_args) :
    seq message * result (outputs 3) :=
  strain_sphere (a_phi a) (a_theta a) (a_u_phi a) (a_u_theta a)
                (a_s_phi a) (a_s_theta a) (a_weight a) (a_paramsel a).

(** Lines 270-273 and 289-336 for one triangle. *)
Definition compute_triangle (myVelfield : Velfield)
    (tri : point * point * point) : result triangle_strain :=
  let: (v1, v2, v3) := tri in
  let xcor_mean := (v1.1 + v2.1 + v3.1) / 3 in
  let ycor_mean := (v1.2 + v2.2 + v3.2) / 3 in
  a <- triangle_inputs myVelfield tri ;;
  o <- (call_strain_sphere a).2 ;;
  Ok (TriangleStrain xcor_mean ycor_mean
        (e_phiphi o *. Fin 1000) (-. e_thetaphi o *. Fin 1000)
        (-. e_thetatheta o *. Fin 1000) (omega_r o *. Fin 1000)).

(** [scipy.spatial.Delaunay]: the simplices, as triples of indices into
    the station list. *)
Variable Delaunay : seq point -> seq (nat * nat * nat).

Definition compute (myVelfield : Velfield) : result (seq triangle_strain) :=
  let z := zip (vf_elon myVelfield) (vf_nlat myVelfield) in
  triangle_vertices <-
    mapM (fun t : nat * nat * nat =>
            let: (i, j, k) := t in
            a <- getitem z i ;; b <- getitem z j ;; c <- getitem z k ;;
            Ok (a, b, c))
         (Delaunay z) ;;
  mapM (compute_triangle myVelfield) triangle_vertices.

End StrainSphere.

(** ** [GPS_TOOLS]: time series, offsets and GPS/GRACE pairing *)

(** A [datetime], counted in microseconds from a fixed epoch; a
    [timedelta] is a difference of two, and its [days] attribute rounds
    towards minus infinity. *)
Notation datetime := int (only parsing).

Definition us_per_day : int := 864 * 100 * 1000 * 1000.

Definition days (delta : int) : int := (delta %/ us_per_day)%Z.

Arguments us_per_day : simpl never.
Arguments days : simpl never.

Section TimeSeries.

Variable F : realFieldType.
Local Notation float := (float F).

(** [gps_io_functions.Timeseries], with the fields its constructor is
    called with in [remove_offsets]. *)
Record Timeseries := {
  name : seq nat;             (* the station name, as character codes *)
  coords : seq F;
  dtarray : seq datetime;
  dN : seq float; dE : seq float; dU : seq float;
  Sn : seq float; Se : seq float; Su : seq float;
  EQtimes : seq datetime
}.

(** [offsets.Offsets]: one object per offset. *)
Record Offsets := {
  e_offsets : float; n_offsets : float; u_offsets : float;
  evdts : datetime
}.

(** *** [offsets.remove_offsets] *)

(** Lines 26-33: one pass of the inner loop. *)
Definition remove_step (t : datetime) (temp : float * float * float)
    (item : Offsets) : float * float * float :=
  let: (tempE, tempN, tempU) := temp in
  let: (tempE, tempN, tempU) :=
    if t == evdts item then (NaN, NaN, NaN) else (tempE, tempN, tempU) in
  if t > evdts item then
    (tempE -. e_offsets item, tempN -. n_offsets item,
     tempU -. u_offsets item)
  else (tempE, tempN, tempU).

(** Lines 23-36: the body of the outer loop for day [i]. *)
Definition remove_day (Data0 : Timeseries) (offsets_obj : seq Offsets)
    (i : nat) : result (float * float * float) :=
  tempE <- getitem (dE Data0) i ;;
  tempN <- getitem (dN Data0) i ;;
  tempU <- getitem (dU Data0) i ;;
  Ok (foldl (remove_step (nth 0 (dtarray Data0) i)) (tempE, tempN, tempU)
            offsets_obj).

Definition remove_offsets (Data0 : Timeseries) (offsets_obj : seq Offsets) :
    result Timeseries :=
  if size offsets_obj == 0%N then Ok Data0
  else
    new <- mapM (remove_day Data0 offsets_obj)
                (iota 0 (size (dtarray Data0))) ;;
    let newE := [seq x.1.1 | x <- new] in
    let newN := [seq x.1.2 | x <- new] in
    let newU := [seq x.2 | x <- new] in
    Ok {| name := name Data0; coords := coords Data0;
          dtarray := dtarray Data0; dN := newN; dE := newE; dU := newU;
          Sn := Sn Data0; Se := Se Data0; Su := Su Data0;
          EQtimes := EQtimes Data0 |}.

(** *** [offsets.fit_single_offset]

    The warnings it prints are left out. *)

(** Lines 53-59: the indices of the days in the window before the start of
    the interval, and in the window after its end. *)
Definition before_indeces (dtarray : seq datetime)
    (interval : datetime * datetime) (offset_num_days : int) : seq nat :=
  [seq i <- iota 0 (size dtarray) |
     let deltat_start := nth 0 dtarray i - interval.1 in
     (- offset_num_days <= days deltat_start) && (days deltat_start <= 0)].

Definition after_indeces (dtarray : seq datetime)
    (interval : datetime * datetime) (offset_num_days : int) : seq nat :=
  [seq i <- iota 0 (size dtarray) |
     let deltat_end := nth 0 dtarray i - interval.2 in
     (0 <= days deltat_end) && (days deltat_end <= offset_num_days)].

Definition fit_single_offset (dtarray : seq datetime) (data : seq float)
    (interval : datetime * datetime) (offset_num_days : int) : result float :=
  let before := before_indeces dtarray interval offset_num_days in
  let after := after_indeces dtarray interval offset_num_days in
  if [|| before == [::], after == [::], size before == 1%N
       | size after == 1%N]
  then Ok (Fin 0)
  else
    before_data <- mapM (getitem data) before ;;
    let before_mean := nanmean before_data in
    after_data <- mapM (getitem data) after ;;
    let after_mean := nanmean after_data in
    let offset := after_mean -. before_mean in
    Ok (if feq offset NaN then Fin 0 else offset).

(** *** [grace_ts_functions.pair_GPSGRACE] *)

Record Paired_TS := {
  p_dtarray : seq datetime;
  north : seq float; east : seq float; vert : seq float;
  N_err : seq float; E_err : seq float; V_err : seq float;
  p_u : seq float; p_v : seq float; p_w : seq float
}.

(** [gps_ts_functions.get_float_times] (decimal years) and [np.interp]. *)
Variable get_float_times : seq datetime -> seq F.
Variable interp : seq F -> seq F -> seq float -> result (seq float).

(** What the loop of lines 23-32 appends for one GPS epoch. *)
Record paired_row := PairedRow {
  r_decyear : F; r_dt : datetime;
  r_north : float; r_east : float; r_vert : float;
  r_N_err : float; r_E_err : float; r_V_err : float
}.

(** Line 24: [min(GRACE_TS.dtarray) < t < max(GRACE_TS.dtarray)]. *)
Definition in_grace_range (GRACE_TS : Timeseries) (t : datetime) :
    result bool :=
  lo <- py_min (dtarray GRACE_TS) ;;
  if lo < t then (hi <- py_max (dtarray GRACE_TS) ;; Ok (t < hi))
  else Ok false.

Definition pair_day (GPS_TS GRACE_TS : Timeseries) (gps_decyear : seq F)
    (i : nat) : result (option paired_row) :=
  let t := nth 0 (dtarray GPS_TS) i in
  keep <- in_grace_range GRACE_TS t ;;
  if keep then
    y <- getitem gps_decyear i ;;
    n <- getitem (dN GPS_TS) i ;;
    e <- getitem (dE GPS_TS) i ;;
    u <- getitem (dU GPS_TS) i ;;
    sn <- getitem (Sn GPS_TS) i ;;
    se <- getitem (Se GPS_TS) i ;;
    su <- getitem (Su GPS_TS) i ;;
    Ok (Some (PairedRow y t n e u sn se su))
  else Ok None.

Definition pair_GPSGRACE (GPS_TS GRACE_TS : Timeseries) : result Paired_TS :=
  let gps_decyear := get_float_times (dtarray GPS_TS) in
  let grace_decyear := get_float_times (dtarray GRACE_TS) in
  rows <- mapM (pair_day GPS_TS GRACE_TS gps_decyear)
               (iota 0 (size (dtarray GPS_TS))) ;;
  let rows := pmap id rows in
  let decyear := map r_decyear rows in
  grace_u <- interp decyear grace_decyear (dE GRACE_TS) ;;
  grace_v <- interp decyear grace_decyear (dN GRACE_TS) ;;
  grace_w <- interp decyear grace_decyear (dU GRACE_TS) ;;
  Ok {| p_dtarray := map r_dt rows;
        north := map r_north rows; east := map r_east rows;
        vert := map r_vert rows;
        N_err := map r_N_err rows; E_err := map r_E_err rows;
        V_err := map r_V_err rows;
        p_u := grace_u; p_v := grace_v; p_w := grace_w |}.

End TimeSeries.

(** ** Specification-side definitions *)

Section OffsetsSpec.

Variable F : realFieldType.

(** The displacement the day at time [t] should carry once the offsets are
    removed: undefined on the day of an event, and otherwise the original
    value minus the sum of the offsets of the events before [t]. *)
Definition offset_removed (offsets_obj : seq (Offsets F))
    (proj : Offsets F -> float F) (t : datetime) (x : float F) : float F :=
  if has (fun item => t == evdts item) offsets_obj then NaN
  else x -. \big[@fadd F/Fin 0]_(item <- offsets_obj | evdts item < t) proj item.

End OffsetsSpec.

(** What numpy documents of [lstsq] on a square system of full rank: it
    returns the solution of the system. *)
Definition lstsq_exact (F : realFieldType) (np : numpy F) : Prop :=
  forall (p : nat) (A : 'M[F]_p) (b : 'cV[F]_p),
    A \in unitmx -> np_lstsq np A b = invmx A *m b.

(** *** Example data: three stations about the equator

    Longitudes 1, -1 and 0 degrees and colatitudes 91, 91 and 88 degrees;
    the mean colatitude is 90 degrees. *)

Section ExampleData.

Variable F : realFieldType.
Variable np : numpy F.

Definition phi_ex : 'rV[F]_3 := vec3 1 (-1) 0.
Definition theta_ex : 'rV[F]_3 := vec3 91 91 88.
Definition ones_ex : 'rV[F]_3 := vec3 1 1 1.

(** The design matrix of the example in rotation-only mode, row by row. *)
Definition G_rows : seq (seq F) :=
  let k := np_pi np / 180 in
  [:: [:: - r0 F; 0; r0 F * k]; [:: 0; r0 F; - r0 F * k];
      [:: - r0 F; 0; r0 F * k]; [:: 0; r0 F; r0 F * k];
      [:: - r0 F; 0; - 2 * r0 F * k]; [:: 0; r0 F; 0]].

(** First run: the observations are [u_phi = (1, -1, 1)] and
    [u_theta = (1, -2, 0)], which [strain_sphere] stacks into
    [d = (1, -1, 1, 1, -2, 0)]; [mstar] is the rotation about the vertical
    that moves the stations by just that. *)
Definition u_phi_1 : 'rV[F]_3 := vec3 1 (-1) 1.
Definition u_theta_1 : 'rV[F]_3 := vec3 1 (-2) 0.

Definition mstar : 'cV[F]_(ncols 1) :=
  \col_j nth 0 [:: 0; 0; 180 / (r0 F * np_pi np)] j.

(** Second run: the predicted velocities of the first run, [dpred[::2]]
    and [dpred[1::2]], and the model vector the solver finds for them. *)
Definition u_phi_2 : 'rV[F]_3 := vec3 1 1 (-2).
Definition u_theta_2 : 'rV[F]_3 := vec3 (-1) 1 0.

Definition mstar2 : 'cV[F]_(ncols 1) :=
  \col_j nth 0 [:: 0; 0; - (5 * 180) / (8 * r0 F * np_pi np)] j.

(** Three stations at one place. *)
Definition zeros_ex : 'rV[F]_3 := vec3 0 0 0.

End ExampleData.

Arguments phi_ex : clear implicits.
Arguments theta_ex : clear implicits.
Arguments ones_ex : clear implicits.
Arguments zeros_ex : clear implicits.
Arguments u_phi_1 : clear implicits.
Arguments u_theta_1 : clear implicits.
Arguments u_phi_2 : clear implicits.
Arguments u_theta_2 : clear implicits.

(** *** A model of the numpy interface over the rationals

    The general statements below hold for every ordered field and every
    interpretation of the interface.  To run the code on concrete input
    the interface is instantiated over the rationals: pi is 22/7, and the
    functions are rational stand-ins that agree with the real ones where
    the examples evaluate them (sine and cosine at 0 and at pi/2, the
    solution of an invertible square system for [lstsq]). *)

Definition pi_rat : rat := 22 / 7.

Definition np_rat : numpy rat :=
  Numpy pi_rat
        (fun x => 4 * x * (pi_rat - x) / pi_rat ^+ 2)
        (fun x => 1 - (2 * x / pi_rat) ^+ 2)
        (fun x => (x + 1) / 2)
        (fun x => pi_rat / 2 * (1 - x))
        (fun y x => y / (1 + x ^+ 2))
        (fun m n A b => pinvmx A *m b).

(** *** Example input for [compute] and for the time-series tools *)

(** The three example stations as a velocity field: longitudes 1, -1, 0
    and latitudes -1, -1, 2 degrees. *)
Definition vf_ex : Velfield rat :=
  {| vf_elon := [:: 1; -1; 0]; vf_nlat := [:: -1; -1; 2];
     vf_e := [:: 1; -1; 1]; vf_n := [:: -1; 2; 0];
     vf_se := [:: 1; 1; 1]; vf_sn := [:: 1; 1; 1] |}.

Definition tri_ex : point rat * point rat * point rat :=
  ((1, -1), (-1, -1), (0, 2)).

(** A GPS series of five epochs and a GRACE series of three. *)
Definition gps_ex : Timeseries rat :=
  {| name := [:: 80; 53; 49; 52]%N; coords := [:: -120; 35];
     dtarray := [:: 10; 20; 30; 40; 50];
     dN := [:: Fin 1; Fin 2; Fin 3; Fin 4; Fin 5];
     dE := [:: Fin 6; Fin 7; Fin 8; Fin 9; Fin 10];
     dU := [:: Fin 11; Fin 12; NaN; Fin 14; Fin 15];
     Sn := [:: Fin 1; Fin 1; Fin 1; Fin 1; Fin 1];
     Se := [:: Fin 1; Fin 1; Fin 1; Fin 1; Fin 1];
     Su := [:: Fin 2; Fin 2; Fin 2; Fin 2; Fin 2];
     EQtimes := [:: 20] |}.

Definition grace_ex : Timeseries rat :=
  {| name := [:: 80; 53; 49; 52]%N; coords := [:: -120; 35];
     dtarray := [:: 20; 30; 40];
     dN := [:: Fin 0; Fin 1; Fin 0]; dE := [:: Fin 0; Fin 1; Fin 0];
     dU := [:: Fin 0; Fin 1; Fin 0];
     Sn := [::]; Se := [::]; Su := [::]; EQtimes := [::] |}.

(** One offset, at the second GPS epoch. *)
Definition offsets_ex : seq (Offsets rat) :=
  [:: {| e_offsets := Fin 1; n_offsets := Fin 2; u_offsets := Fin 3;
         evdts := 20 |}].

(** Stand-ins for [get_float_times] and [np.interp]: the time in
    microseconds, and the value of the nearest GRACE sample. *)
Definition float_times_ex (dts : seq datetime) : seq rat :=
  [seq t%:~R | t <- dts].

Definition interp_ex (x xp : seq rat) (fp : seq (float rat)) :
    result (seq (float rat)) :=
  if xp is [::] then Raise ValueError
  else Ok [seq nth NaN fp (index y xp) | y <- x].

(** What [pair_GPSGRACE] returns on them. *)
Definition paired_ex : Paired_TS rat :=
  {| p_dtarray := [:: 30];
     north := [:: Fin 3]; east := [:: Fin 8]; vert := [:: NaN];
     N_err := [:: Fin 1]; E_err := [:: Fin 1]; V_err := [:: Fin 2];
     p_u := [:: Fin 1]; p_v := [:: Fin 1]; p_w := [:: Fin 1] |}.

(** The GPS epochs [pair_GPSGRACE] keeps: strictly inside the GRACE time
    span. *)
Definition inside (lo hi : datetime) (t : datetime) : bool :=
  (lo < t) && (t < hi).

(** ** Facts on the Python-level helpers *)

Section Helpers.

Variables (T U : Type).

Lemma getitem_nth (x0 : T) (s : seq T) (i : nat) :
  (i < size s)%N -> getitem s i = Ok (nth x0 s i).
Proof. by move=> lt_i; rewrite /getitem (nth_map x0). Qed.

Lemma getitem_ok (x0 : T) (s : seq T) (i : nat) (x : T) :
  getitem s i = Ok x -> (i < size s)%N /\ x = nth x0 s i.
Proof.
rewrite /getitem; case: (ltnP i (size s)) => [lt_i | le_i].
  by rewrite (nth_map x0) // => -[<-].
by rewrite nth_default // size_map.
Qed.

Lemma mapM_inv (f : T -> result U) (s : seq T) (r : seq U) :
  mapM f s = Ok r ->
  size r = size s /\
  forall (x0 : T) (y0 : U) (i : nat),
    (i < size s)%N -> f (nth x0 s i) = Ok (nth y0 r i).
Proof.
elim: s r => [|x s IH] r /=; first by case=> <-.
case fx: (f x) => [y|] //=; case fs: (mapM f s) => [ys|] //= -[<-].
have [sz nth_ys] := IH _ fs; split; first by rewrite /= sz.
by move=> x0 y0 [|i] //= lt_i; apply: nth_ys.
Qed.

End Helpers.

Lemma mapM_ok (T : eqType) (U : Type) (f : T -> result U) (g : T -> U)
    (s : seq T) :
  {in s, forall x, f x = Ok (g x)} -> mapM f s = Ok (map g s).
Proof.
elim: s => [|x s IH] //= ok_s.
rewrite ok_s ?mem_head //= IH // => y ys.
by apply: ok_s; rewrite in_cons ys orbT.
Qed.

(** ** [offsets.remove_offsets] *)

Section RemoveOffsets.

Variable F : realFieldType.
Local Notation float := (float F).
Implicit Types (a e s x : float) (t : datetime) (proj : Offsets F -> float).

Lemma fsub0 a : a -. Fin 0 = a.
Proof. by case: a => [|x] //=; rewrite /fsub /= subr0. Qed.

Lemma fsub_fadd a e s : a -. e -. s = a -. (e +. s).
Proof.
by case: a e s => [|a] [|e] [|s] //=; rewrite /fsub /fadd /=; congr Fin; ring.
Qed.

Lemma offset_removed_nil proj t x : offset_removed [::] proj t x = x.
Proof. by rewrite /offset_removed /= big_nil fsub0. Qed.

Lemma offset_removed_cons (item : Offsets F) offsets_obj proj t x :
  offset_removed (item :: offsets_obj) proj t x =
  if t == evdts item then NaN
  else offset_removed offsets_obj proj t
         (if evdts item < t then x -. proj item else x).
Proof.
rewrite /offset_removed /= big_cons; case: (ltgtP t (evdts item)) => //= _.
by case: ifP => // _; rewrite fsub_fadd.
Qed.

Lemma offset_removed_nan offsets_obj proj t :
  offset_removed offsets_obj proj t NaN = NaN.
Proof. by rewrite /offset_removed; case: ifP. Qed.

(** The inner loop of [remove_offsets], in closed form. *)
Lemma remove_loop offsets_obj t (tempE tempN tempU : float) :
  foldl (remove_step t) (tempE, tempN, tempU) offsets_obj =
  (offset_removed offsets_obj (@e_offsets F) t tempE,
   offset_removed offsets_obj (@n_offsets F) t tempN,
   offset_removed offsets_obj (@u_offsets F) t tempU).
Proof.
elim: offsets_obj tempE tempN tempU => [|item offsets_obj IH] tE tN tU /=.
  by rewrite !offset_removed_nil.
rewrite !offset_removed_cons; case: (ltgtP t (evdts item)) => cmp /=.
- by rewrite IH.
- by rewrite IH.
- by rewrite IH !offset_removed_nan.
Qed.

(** C8.  On a time series whose displacement arrays cover its dates,
    [remove_offsets] returns a time series with the name, coordinates,
    dates, uncertainties and earthquake times of its input; at each date
    the east, north and up displacements are NaN when the date is the date
    of one of the events, and otherwise the original displacement minus the
    sum of the offsets of the events dated strictly before it.  With an
    empty offset list the input itself is returned. *)
Theorem remove_offsets_spec (Data0 : Timeseries F)
    (offsets_obj : seq (Offsets F)) :
  (size (dtarray Data0) <= size (dE Data0))%N ->
  (size (dtarray Data0) <= size (dN Data0))%N ->
  (size (dtarray Data0) <= size (dU Data0))%N ->
  exists newData : Timeseries F,
    [/\ remove_offsets Data0 offsets_obj = Ok newData,
        [/\ name newData = name Data0, coords newData = coords Data0,
            dtarray newData = dtarray Data0 & EQtimes newData = EQtimes Data0],
        [/\ Sn newData = Sn Data0, Se newData = Se Data0
          & Su newData = Su Data0],
        forall i, (i < size (dtarray Data0))%N ->
          let t := nth 0 (dtarray Data0) i in
          [/\ nth NaN (dE newData) i =
                offset_removed offsets_obj (@e_offsets F) t
                               (nth NaN (dE Data0) i),
              nth NaN (dN newData) i =
                offset_removed offsets_obj (@n_offsets F) t
                               (nth NaN (dN Data0) i)
            & nth NaN (dU newData) i =
                offset_removed offsets_obj (@u_offsets F) t
                               (nth NaN (dU Data0) i)]
      & offsets_obj = [::] -> newData = Data0].
Proof.
move=> szE szN szU; rewrite /remove_offsets.
case: ifP => [/eqP/size0nil -> | nonempty].
  by exists Data0; split=> // i _ /=; rewrite !offset_removed_nil.
set offs := offsets_obj.
pose day i :=
  let t := nth 0 (dtarray Data0) i in
  (offset_removed offs (@e_offsets F) t (nth NaN (dE Data0) i),
   offset_removed offs (@n_offsets F) t (nth NaN (dN Data0) i),
   offset_removed offs (@u_offsets F) t (nth NaN (dU Data0) i)).
have -> : mapM (remove_day Data0 offs) (iota 0 (size (dtarray Data0))) =
          Ok (map day (iota 0 (size (dtarray Data0)))).
  apply: mapM_ok => i; rewrite mem_iota add0n => /andP [_ lt_i].
  rewrite /remove_day (getitem_nth NaN) ?(leq_trans lt_i) //=.
  rewrite (getitem_nth NaN) ?(leq_trans lt_i) //=.
  by rewrite (getitem_nth NaN) ?(leq_trans lt_i) //= remove_loop.
eexists; split=> //= [i lt_i | offs_nil].
  by rewrite -!map_comp !(nth_map 0%N) ?size_iota // nth_iota.
by move: nonempty; rewrite -/offs offs_nil.
Qed.

End RemoveOffsets.

(** ** [offsets.fit_single_offset] *)

Section FitSingleOffset.

Variable F : realFieldType.
Local Notation float := (float F).

Lemma us_per_day_gt0 : 0 < us_per_day.
Proof. by rewrite /us_per_day !mulr_gt0. Qed.

(** The two windows, in microseconds: a day is in the window before the
    interval when it is at most [offset_num_days] days before its start
    and less than a day after it, and symmetrically for the window after
    the interval. *)
Lemma before_window (t start offset_num_days : int) :
  (- offset_num_days <= days (t - start)) && (days (t - start) <= 0) =
  (start - offset_num_days * us_per_day <= t) && (t < start + us_per_day).
Proof.
rewrite /days lez_divRL ?us_per_day_gt0 // -[_ <= 0]ltzD1 add0r.
rewrite ltz_divLR ?us_per_day_gt0 // mul1r mulNr.
by rewrite lerBrDl ltrBlDl [_ - _ <= _]lerBlDl.
Qed.

Lemma after_window (t stop offset_num_days : int) :
  (0 <= days (t - stop)) && (days (t - stop) <= offset_num_days) =
  (stop <= t) && (t < stop + (offset_num_days + 1) * us_per_day).
Proof.
rewrite /days lez_divRL ?us_per_day_gt0 // mul0r subr_ge0.
by rewrite -[_ <= offset_num_days]ltzD1 ltz_divLR ?us_per_day_gt0 // ltrBlDl.
Qed.

Lemma feq_nan (a : float) : feq a NaN = false.
Proof. by case: a. Qed.

(** C10.  [fit_single_offset] returns 0 as soon as fewer than two days
    fall in the window before the interval or fewer than two in the window
    after it; otherwise, on data that cover the dates, it returns the
    nan-mean of the data in the window after the interval minus the
    nan-mean of the data in the window before it. *)
Theorem fit_single_offset_spec (dtarray : seq datetime) (data : seq float)
    (interval : datetime * datetime) (offset_num_days : int) :
  let before := before_indeces dtarray interval offset_num_days in
  let after := after_indeces dtarray interval offset_num_days in
  ((size before < 2)%N || (size after < 2)%N ->
     fit_single_offset dtarray data interval offset_num_days = Ok (Fin 0))
  /\
  ((1 < size before)%N -> (1 < size after)%N ->
   (size dtarray <= size data)%N ->
     fit_single_offset dtarray data interval offset_num_days =
     Ok (nanmean [seq nth NaN data i | i <- after]
         -. nanmean [seq nth NaN data i | i <- before])).
Proof.
move=> before after; rewrite /fit_single_offset -/before -/after; split.
  by case: before after => [|i [|j before]] [|k [|l after]].
move=> two_before two_after covers.
have -> : [|| before == [::], after == [::], size before == 1%N
            | size after == 1%N] = false.
  by move: two_before two_after;
     case: before after => [|i [|j before]] [|k [|l after]].
have in_range (s := iota 0 (size dtarray)) (p : pred nat) :
    mapM (getitem data) (filter p s) =
    Ok [seq nth NaN data i | i <- filter p s].
  apply: mapM_ok => i; rewrite mem_filter mem_iota add0n.
  by case/and3P=> _ _ lt_i; rewrite (getitem_nth NaN) ?(leq_trans lt_i).
by rewrite /before /after /before_indeces /after_indeces !in_range /= feq_nan.
Qed.

End FitSingleOffset.

(** ** [grace_ts_functions.pair_GPSGRACE] *)

Section PairGPSGRACE.

Variable F : realFieldType.
Local Notation float := (float F).
Variable get_float_times : seq datetime -> seq F.
Variable interp : seq F -> seq F -> seq float -> result (seq float).

(** [min] and [max] return the earliest and the latest date of a list. *)
Lemma py_min_least (s : seq datetime) (lo : datetime) :
  py_min s = Ok lo -> lo \in s /\ {in s, forall t, lo <= t}.
Proof.
case: s => [|x s] //= -[<-].
elim: s x => [|y s IH] x /=.
  by split; rewrite ?mem_head // => t; rewrite mem_seq1 => /eqP ->.
have [in_s least] := IH (Order.min x y); split.
  by move: in_s; rewrite !in_cons; case: (leP x y) => _ /orP [-> | ->];
     rewrite ?orbT.
move=> t; rewrite !inE => /or3P [/eqP -> | /eqP -> | t_s].
- by apply: le_trans (least _ (mem_head _ _)) _; rewrite ge_min lexx.
- by apply: le_trans (least _ (mem_head _ _)) _; rewrite ge_min lexx orbT.
- by apply: least; rewrite in_cons t_s orbT.
Qed.

Lemma py_max_greatest (s : seq datetime) (hi : datetime) :
  py_max s = Ok hi -> hi \in s /\ {in s, forall t, t <= hi}.
Proof.
case: s => [|x s] //= -[<-].
elim: s x => [|y s IH] x /=.
  by split; rewrite ?mem_head // => t; rewrite mem_seq1 => /eqP ->.
have [in_s greatest] := IH (Order.max x y); split.
  by move: in_s; rewrite !in_cons; case: (leP x y) => _ /orP [-> | ->];
     rewrite ?orbT.
move=> t; rewrite !inE => /or3P [/eqP -> | /eqP -> | t_s].
- by apply: le_trans (greatest _ (mem_head _ _)); rewrite le_max lexx.
- by apply: le_trans (greatest _ (mem_head _ _)); rewrite le_max lexx orbT.
- by apply: greatest; rewrite in_cons t_s orbT.
Qed.

Lemma in_grace_range_ok (GRACE_TS : Timeseries F) (t : datetime) (b : bool) :
  in_grace_range GRACE_TS t = Ok b ->
  exists lo hi, [/\ py_min (dtarray GRACE_TS) = Ok lo,
                    py_max (dtarray GRACE_TS) = Ok hi & b = inside lo hi t].
Proof.
rewrite /in_grace_range /inside.
case: (dtarray GRACE_TS) => [|x s] //=.
by case: ifP => lt_lo [<-];
   exists (foldl Order.min x s), (foldl Order.max x s); rewrite /inside lt_lo.
Qed.

(** The rows a loop keeps, when each pass appends at most one. *)
Lemma mapM_pmap (R : Type) (f : nat -> result (option R)) (r0 : R)
    (s : seq nat) (rows : seq (option R)) :
  mapM f s = Ok rows ->
  pmap id rows =
  [seq (if f i is Ok (Some r) then r else r0)
     | i <- s & (if f i is Ok (Some _) then true else false)].
Proof.
elim: s rows => [|i s IH] rows /=; first by case=> <-.
case fi: (f i) => [[r|]|] //=; case fs: (mapM f s) => [rs|] //= -[<-] /=.
  by rewrite fi (IH _ fs).
exact: IH.
Qed.

Lemma pair_day_some (GPS_TS GRACE_TS : Timeseries F) (gps_decyear : seq F)
    (i : nat) (r : paired_row F) :
  pair_day GPS_TS GRACE_TS gps_decyear i = Ok (Some r) ->
  let t := nth 0 (dtarray GPS_TS) i in
  [/\ in_grace_range GRACE_TS t = Ok true, r_dt r = t,
      [&& i < size (dN GPS_TS), i < size (dE GPS_TS), i < size (dU GPS_TS),
          i < size (Sn GPS_TS), i < size (Se GPS_TS) & i < size (Su GPS_TS)]%N,
      [/\ r_north r = nth NaN (dN GPS_TS) i, r_east r = nth NaN (dE GPS_TS) i
        & r_vert r = nth NaN (dU GPS_TS) i]
    & [/\ r_N_err r = nth NaN (Sn GPS_TS) i, r_E_err r = nth NaN (Se GPS_TS) i
        & r_V_err r = nth NaN (Su GPS_TS) i]].
Proof.
rewrite /pair_day; case: (in_grace_range _ _) => [[]|] //=.
case: (getitem gps_decyear i) => [y|] //=.
case n_i: (getitem _ i) => [n|] //=; case e_i: (getitem _ i) => [e|] //=.
case u_i: (getitem _ i) => [u|] //=; case sn_i: (getitem _ i) => [sn|] //=.
case se_i: (getitem _ i) => [se|] //=; case su_i: (getitem _ i) => [su|] //=.
case=> <- /=.
have [-> ->] := getitem_ok NaN n_i; have [-> ->] := getitem_ok NaN e_i.
have [-> ->] := getitem_ok NaN u_i; have [-> ->] := getitem_ok NaN sn_i.
by have [-> ->] := getitem_ok NaN se_i; have [-> ->] := getitem_ok NaN su_i.
Qed.

(** C9.  Every epoch of the series [pair_GPSGRACE] returns is a GPS epoch
    lying strictly between the earliest and the latest GRACE epoch, the
    GPS displacements and uncertainties at the epochs that are kept are
    copied unchanged and in the GPS order, and the paired series is not
    longer than the GPS series. *)
Theorem pair_GPSGRACE_spec (GPS_TS GRACE_TS : Timeseries F)
    (paired : Paired_TS F) :
  pair_GPSGRACE get_float_times interp GPS_TS GRACE_TS = Ok paired ->
  exists idx : seq nat,
    [/\ subseq idx (iota 0 (size (dtarray GPS_TS))),
        p_dtarray paired = [seq nth 0 (dtarray GPS_TS) i | i <- idx],
        [/\ north paired = [seq nth NaN (dN GPS_TS) i | i <- idx],
            east paired = [seq nth NaN (dE GPS_TS) i | i <- idx]
          & vert paired = [seq nth NaN (dU GPS_TS) i | i <- idx]]
        /\
        [/\ N_err paired = [seq nth NaN (Sn GPS_TS) i | i <- idx],
            E_err paired = [seq nth NaN (Se GPS_TS) i | i <- idx]
          & V_err paired = [seq nth NaN (Su GPS_TS) i | i <- idx]]
        /\
        all (fun i => [&& i < size (dN GPS_TS), i < size (dE GPS_TS),
                          i < size (dU GPS_TS), i < size (Sn GPS_TS),
                          i < size (Se GPS_TS) & i < size (Su GPS_TS)]%N) idx,
        (size (p_dtarray paired) <= size (dtarray GPS_TS))%N
      & forall t, t \in p_dtarray paired ->
          exists lo hi,
            [/\ lo \in dtarray GRACE_TS, hi \in dtarray GRACE_TS,
                {in dtarray GRACE_TS, forall g, lo <= g <= hi}
              & (lo < t) && (t < hi)]].
Proof.
rewrite /pair_GPSGRACE.
set f := pair_day GPS_TS GRACE_TS _.
case loop: (mapM f _) => [rows|] //=.
case: (interp _ _ _) => [grace_u|] //=; case: (interp _ _ _) => [grace_v|] //=.
case: (interp _ _ _) => [grace_w|] //= -[<-] /=.
pose r0 := PairedRow (0 : F) (0 : int) NaN NaN NaN NaN NaN NaN.
rewrite (mapM_pmap r0 loop).
set kept := fun i => if f i is Ok (Some _) then true else false.
set idx := filter kept _.
have row_of i : i \in idx -> f i = Ok (Some (if f i is Ok (Some r) then r else r0)).
  by rewrite mem_filter /kept; case: (f i) => [[r|]|].
exists idx; split.
- exact: filter_subseq.
- rewrite -map_comp; apply/eq_in_map => i /row_of /pair_day_some.
  by case=> _ /= ->.
- have copied i : i \in idx ->
      let r := if f i is Ok (Some r) then r else r0 in
      [/\ r_north r = nth NaN (dN GPS_TS) i, r_east r = nth NaN (dE GPS_TS) i
        & r_vert r = nth NaN (dU GPS_TS) i] /\
      [/\ r_N_err r = nth NaN (Sn GPS_TS) i, r_E_err r = nth NaN (Se GPS_TS) i
        & r_V_err r = nth NaN (Su GPS_TS) i].
    by move=> /row_of /pair_day_some [].
  split; [|split].
  + by split; rewrite -map_comp; apply/eq_in_map => i;
       move=> /copied [] [e1 e2 e3] [e4 e5 e6] /=.
  + by split; rewrite -map_comp; apply/eq_in_map => i;
       move=> /copied [] [e1 e2 e3] [e4 e5 e6] /=.
  + by apply/allP => i /row_of /pair_day_some [].
- by rewrite !size_map (leq_trans (size_subseq (filter_subseq _ _))) ?size_iota.
- move=> t; rewrite -map_comp => /mapP [i /row_of /pair_day_some].
  case=> /in_grace_range_ok [lo [hi [min_lo max_hi inside_t]]] dt_r _ _ _ /= ->.
  have [lo_in least] := py_min_least min_lo.
  have [hi_in greatest] := py_max_greatest max_hi.
  exists lo, hi; split=> // [g g_in|]; last by rewrite dt_r.
  by rewrite least // greatest.
Qed.

End PairGPSGRACE.

(** ** [strain_sphere]: the least-squares solve *)

Section StrainFacts.

Variable F : realFieldType.
Variable np : numpy F.
Variable n : nat.
Implicit Types phi theta u_phi u_theta s_phi s_theta : 'rV[F]_n.
Implicit Types weight paramsel : int.

Lemma r0_neq0 : r0 F != 0.
Proof. by rewrite /r0 mulf_neq0 // pnatr_eq0. Qed.

Lemma eps_gt0 : 0 < eps F.
Proof. by rewrite /eps invr_gt0 exprn_gt0 // ltr0n. Qed.

(** With at least one site the collinearity test goes through, and
    [strain_sphere] prints its warning before it solves. *)
Lemma strain_sphere_eq phi theta u_phi u_theta s_phi s_theta weight paramsel :
  (0 < n)%N ->
  exists max_resc : F,
    strain_sphere np phi theta u_phi u_theta s_phi s_theta weight paramsel =
    (warning (colin_of max_resc (radians np phi) (radians np theta)),
     solve np weight paramsel (radians np phi) (radians np theta)
           u_phi u_theta s_phi s_theta).
Proof.
rewrite /strain_sphere.
case: n phi theta u_phi u_theta s_phi s_theta => [|n'] // phi theta u_phi u_theta s_phi s_theta _.
by rewrite enum_ordSl /=; eexists.
Qed.

(** What is printed does not depend on the weighting flag. *)
Lemma strain_sphere_fst phi theta u_phi u_theta s_phi s_theta weight weight'
    paramsel :
  (strain_sphere np phi theta u_phi u_theta s_phi s_theta weight paramsel).1 =
  (strain_sphere np phi theta u_phi u_theta s_phi s_theta weight' paramsel).1.
Proof. by rewrite /strain_sphere; case: py_max. Qed.

Lemma strain_sphere_ok phi theta u_phi u_theta s_phi s_theta weight paramsel
    msgs out :
  strain_sphere np phi theta u_phi u_theta s_phi s_theta weight paramsel =
    (msgs, Ok out) ->
  let G := Gmat np paramsel (radians np phi) (radians np theta) in
  let C := covd s_phi s_theta in
  [/\ finite_weights weight C, normal weight G C \in unitmx
    & out = finish np (mean (radians np theta)) (mean (radians np phi)) G
                   (Mmat weight G C) C (dvec u_phi u_theta)].
Proof.
rewrite /strain_sphere; case: py_max => [mx|] // [_].
by rewrite /solve; case: ifP => // /negbFE ->; case: ifP => // /negbFE -> [<-].
Qed.

(** *** Equal uncertainties: weighting changes nothing *)

Lemma covd_const (sigma : F) s_phi s_theta :
  (forall i, s_phi 0 i = sigma) -> (forall i, s_theta 0 i = sigma) ->
  covd s_phi s_theta = (sigma ^+ 2)%:M.
Proof.
move=> phi_sigma theta_sigma; apply/matrixP => i j; rewrite !mxE.
by case: splitP => k _; rewrite !mxE ?phi_sigma ?theta_sigma.
Qed.

Lemma Wmat_scalar (a : F) : Wmat (a%:M : 'M[F]_(n + n)) = (1 / a)%:M.
Proof. by apply/matrixP => i j; rewrite !mxE eqxx mulr1n. Qed.

Section EqualUncertainties.

Variables (sigma : F) (p : nat) (G : 'M[F]_(n + n, p)).
Hypothesis sigma_neq0 : sigma != 0.

Let C : 'M[F]_(n + n) := (sigma ^+ 2)%:M.
Let a : F := 1 / sigma ^+ 2.

Let a_neq0 : a != 0.
Proof. by rewrite /a div1r invr_eq0 expf_neq0. Qed.

Lemma finite_weights_const weight : finite_weights weight C.
Proof.
apply/implyP => _; apply/forallP => k.
by rewrite /C mxE eqxx mulr1n expf_neq0.
Qed.

Lemma normal_const weight :
  normal weight G C = (if weight == 1 then a else 1) *: (G^T *m G).
Proof.
rewrite /normal /GtW; case: ifP => _; last by rewrite scale1r.
by rewrite /C Wmat_scalar mul_mx_scalar scalemxAl.
Qed.

Lemma normal_unit_const weight weight' :
  (normal weight G C \in unitmx) = (normal weight' G C \in unitmx).
Proof.
by rewrite !normal_const; do 2![case: ifP => _]; rewrite ?unitmxZ ?unitfE ?oner_neq0.
Qed.

Lemma Mmat_const weight weight' :
  normal weight G C \in unitmx -> Mmat weight G C = Mmat weight' G C.
Proof.
have Mmat1 : G^T *m G \in unitmx ->
    Mmat 1 G C = invmx (G^T *m G) *m G^T.
  move=> unit_A; rewrite /Mmat normal_const /GtW eqxx /C Wmat_scalar -/a.
  rewrite invmxZ ?unitmxZ ?unitfE // mul_mx_scalar -scalemxAl -scalemxAr.
  by rewrite scalerA mulVf // scale1r.
have Mmat0 w : w != 1 -> Mmat w G C = invmx (G^T *m G) *m G^T.
  by move=> /negbTE w1; rewrite /Mmat /normal /GtW w1.
rewrite normal_const; case: (eqVneq weight 1) => [->|w1];
  case: (eqVneq weight' 1) => [->|w1'] //;
  rewrite ?unitmxZ ?unitfE ?oner_neq0 // => unit_A;
  by rewrite ?Mmat1 ?Mmat0.
Qed.

End EqualUncertainties.

(** C2.  For three sites or more, when all the velocity uncertainties are
    one positive value, the solver with [weight = 1] and the solver with
    weighting disabled (any other [weight]) print and return the same, in
    every mode: the same outputs, or the same exception. *)
Theorem weighted_unweighted_coincide (sigma : F) phi theta u_phi u_theta
    s_phi s_theta weight paramsel :
  (3 <= n)%N -> 0 < sigma ->
  (forall i, s_phi 0 i = sigma) -> (forall i, s_theta 0 i = sigma) ->
  strain_sphere np phi theta u_phi u_theta s_phi s_theta 1 paramsel =
  strain_sphere np phi theta u_phi u_theta s_phi s_theta weight paramsel.
Proof.
move=> _ sigma_gt0 phi_sigma theta_sigma.
have sigma_neq0 : sigma != 0 by rewrite gt_eqF.
rewrite /strain_sphere; case: py_max => [max_resc|] //; congr (_, _).
rewrite /solve (covd_const phi_sigma theta_sigma) !finite_weights_const //=.
rewrite (normal_unit_const _ sigma_neq0 1 weight).
by case: ifP => // /negbFE unit_A; rewrite (Mmat_const sigma_neq0 1 unit_A).
Qed.

(** *** The misfit *)

Lemma covd_unit s_phi s_theta :
  (forall i, s_phi 0 i != 0) -> (forall i, s_theta 0 i != 0) ->
  covd s_phi s_theta \in unitmx.
Proof.
move=> phi_neq0 theta_neq0; rewrite unitmxE det_diag unitfE.
apply/prodf_neq0 => k _; rewrite !mxE.
by case: splitP => j _; rewrite mxE expf_neq0.
Qed.

Lemma chi2_finish paramsel (theta_0 phi_0 : F)
    (G : 'M[F]_(n + n, ncols paramsel)) (M : 'M[F]_(ncols paramsel, n + n))
    (C : 'M[F]_(n + n)) (d : 'cV[F]_(n + n)) :
  lstsq_exact np -> C \in unitmx ->
  chi2 (finish np theta_0 phi_0 G M C d) =
  Fin (((d - G *m (M *m d))^T *m invmx C *m (d - G *m (M *m d))) 0 0
       / (2 * n)%:R).
Proof.
move=> lstsq_ok unit_C /=.
by rewrite lstsq_ok ?unitmx_tr // trmx_mul trmx_inv trmxK mul2n -addnn.
Qed.

(** C3.  For valid uncertainties (none is zero) and in every mode, the
    [chi2] that [strain_sphere] returns is
    [(d - G m)^T covd^-1 (d - G m) / N] with [N = 2 n]: the divisor is the
    number of samples in the three-parameter modes and in the
    six-parameter mode alike. *)
Theorem chi2_formula phi theta u_phi u_theta s_phi s_theta weight paramsel
    msgs out :
  lstsq_exact np ->
  (forall i, s_phi 0 i != 0) -> (forall i, s_theta 0 i != 0) ->
  strain_sphere np phi theta u_phi u_theta s_phi s_theta weight paramsel =
    (msgs, Ok out) ->
  let d := dvec u_phi u_theta in
  let G := Gmat np paramsel (radians np phi) (radians np theta) in
  let C := covd s_phi s_theta in
  let m := Mmat weight G C *m d in
  chi2 out =
  Fin (((d - G *m m)^T *m invmx C *m (d - G *m m)) 0 0 / (2 * n)%:R).
Proof.
move=> lstsq_ok phi_neq0 theta_neq0 /strain_sphere_ok [_ _ ->].
exact: chi2_finish lstsq_ok (covd_unit phi_neq0 theta_neq0).
Qed.

(** *** The modes *)

(** C4, as the code has it.  In rotation-only mode the strain outputs are
    NaN and their uncertainties are 0; in strain-only mode the rotation
    and translation outputs, the Euler-vector outputs and the
    uncertainties of [omega_r] and of the Euler vector are NaN, and the
    uncertainties of the translation rates are 0. *)
Theorem unused_outputs phi theta u_phi u_theta s_phi s_theta weight paramsel
    msgs out :
  strain_sphere np phi theta u_phi u_theta s_phi s_theta weight paramsel =
    (msgs, Ok out) ->
  (paramsel = 1 ->
     [/\ e_phiphi out = NaN, e_thetaphi out = NaN & e_thetatheta out = NaN]
     /\ [/\ s_e_phiphi out = Fin 0, s_e_thetaphi out = Fin 0
          & s_e_thetatheta out = Fin 0])
  /\
  (paramsel = 2 ->
     [/\ [/\ omega_r out = NaN, U_theta out = NaN & U_phi out = NaN],
         [/\ OMEGA out = NaN, THETA_p out = NaN, PHI_p out = NaN
           & r_PHITHETA out = NaN],
         [/\ s_omega_r out = NaN, s_OMEGA out = NaN, s_THETA_p out = NaN
           & s_PHI_p out = NaN]
       & s_U_theta out = Fin 0 /\ s_U_phi out = Fin 0]).
Proof.
move=> /strain_sphere_ok [_ _ ->].
by split=> paramselE; move: (Gmat _ _ _ _) (Mmat _ _ _); rewrite paramselE.
Qed.

(** C5.  Whatever the mode selector is, other than 1 and 2, the solver
    inverts for rotation and strain together: [G] has six columns (three
    when [paramsel] is 1 or 2), and the six components [omega_theta],
    [omega_phi], [omega_r], [e_phiphi], [e_thetaphi], [e_thetatheta] are the
    six entries of the least-squares solution [m], none of them NaN; the
    return list carries [omega_theta] and [omega_phi] as the translation
    rates [U_phi = - r0 omega_theta] and [U_theta = r0 omega_phi]. *)
Theorem default_mode_solves_both phi theta u_phi u_theta s_phi s_theta weight
    paramsel :
  paramsel != 1 -> paramsel != 2 ->
  let d := dvec u_phi u_theta in
  let G := Gmat np paramsel (radians np phi) (radians np theta) in
  let m := Mmat weight G (covd s_phi s_theta) *m d in
  [/\ ncols paramsel = 6%N /\ ncols 1 = 3%N /\ ncols 2 = 3%N,
      unpack m =
        Components (Fin (vget m 0)) (Fin (vget m 1)) (Fin (vget m 2))
                   (Fin (vget m 3)) (Fin (vget m 4)) (Fin (vget m 5))
    & forall msgs out,
        strain_sphere np phi theta u_phi u_theta s_phi s_theta weight paramsel
          = (msgs, Ok out) ->
        [/\ e_phiphi out = Fin (vget m 3), e_thetaphi out = Fin (vget m 4),
            e_thetatheta out = Fin (vget m 5) & omega_r out = Fin (vget m 2)]
        /\ U_theta out = Fin (r0 F * vget m 1)
        /\ U_phi out = Fin (- r0 F * vget m 0)].
Proof.
move=> /negbTE not1 /negbTE not2 d G m.
have unpackE : unpack m =
    Components (Fin (vget m 0)) (Fin (vget m 1)) (Fin (vget m 2))
               (Fin (vget m 3)) (Fin (vget m 4)) (Fin (vget m 5)).
  by rewrite /unpack not1 not2.
split=> // [|msgs out /strain_sphere_ok [_ _ ->]]; first by rewrite /ncols not1 not2.
by rewrite /= -/G -/d -/m unpackE.
Qed.

End StrainFacts.

(** *** When the normal matrix can be inverted *)

Section NormalMatrix.

Variable F : realFieldType.

(** A weighted Gram matrix with positive weights is invertible as soon as
    the columns of [G] are independent. *)
Lemma weighted_gram_unit (m p : nat) (G : 'M[F]_(m, p)) (w : 'rV[F]_m) :
  (forall k, 0 < w 0 k) -> (forall x : 'cV[F]_p, G *m x = 0 -> x = 0) ->
  G^T *m diag_mx w *m G \in unitmx.
Proof.
move=> w_gt0 inj; rewrite -row_free_unit -kermx_eq0.
apply/eqP/row_matrixP => i; rewrite row0.
set A := G^T *m _ *m G; set x := row i (kermx A).
have xA : x *m A = 0 by rewrite -row_mul mulmx_ker row0.
suff: x^T = 0 by move/(congr1 trmx); rewrite trmxK trmx0.
apply: inj; set v := G *m x^T.
have: (v^T *m diag_mx w *m v) 0 0 = 0.
  have -> : v^T *m diag_mx w *m v = x *m A *m x^T.
    by rewrite /v /A trmx_mul trmxK !mulmxA.
  by rewrite xA mul0mx mxE.
rewrite mxE => /eqP; rewrite psumr_eq0 => [k _|].
  rewrite mul_mx_diag !mxE -mulrA mulrCA.
  by apply: mulr_ge0; [exact: ltW | rewrite -expr2 sqr_ge0].
move=> /allP all0; apply/matrixP => k j; rewrite ord1 [RHS]mxE.
have := all0 k (mem_index_enum _); rewrite mul_mx_diag !mxE /= -mulrA mulrCA.
by rewrite mulf_eq0 gt_eqF //= mulf_eq0 orbb => /eqP.
Qed.

Variable n : nat.

Lemma covd_diag (s_phi s_theta : 'rV[F]_n) (k : 'I_(n + n)) :
  covd s_phi s_theta k k =
  (row_mx (map_mx (fun s => s ^+ 2) s_phi) (map_mx (fun s => s ^+ 2) s_theta))
    0 k.
Proof. by rewrite mxE eqxx mulr1n. Qed.

Lemma covd_gt0 (s_phi s_theta : 'rV[F]_n) (k : 'I_(n + n)) :
  (forall i, s_phi 0 i != 0) -> (forall i, s_theta 0 i != 0) ->
  0 < covd s_phi s_theta k k.
Proof.
move=> phi_neq0 theta_neq0; rewrite covd_diag mxE.
by case: splitP => j _; rewrite mxE exprn_even_gt0 //= ?phi_neq0 ?theta_neq0.
Qed.

Lemma finite_weights_covd (weight : int) (s_phi s_theta : 'rV[F]_n) :
  (forall i, s_phi 0 i != 0) -> (forall i, s_theta 0 i != 0) ->
  finite_weights weight (covd s_phi s_theta).
Proof.
move=> phi_neq0 theta_neq0; apply/implyP => _; apply/forallP => k.
by rewrite gt_eqF // covd_gt0.
Qed.

(** For valid uncertainties, weighted or not, [np.linalg.inv] succeeds when
    the columns of [G] are independent. *)
Lemma normal_unit (weight : int) (p : nat) (G : 'M[F]_(n + n, p))
    (s_phi s_theta : 'rV[F]_n) :
  (forall i, s_phi 0 i != 0) -> (forall i, s_theta 0 i != 0) ->
  (forall x : 'cV[F]_p, G *m x = 0 -> x = 0) ->
  normal weight G (covd s_phi s_theta) \in unitmx.
Proof.
move=> phi_neq0 theta_neq0 inj; rewrite /normal /GtW; case: ifP => _.
  apply: weighted_gram_unit => // k.
  by rewrite mxE divr_gt0 ?ltr01 // covd_gt0.
rewrite -[G^T]mulmx1 -(diag_const_mx _ 1); apply: weighted_gram_unit => // k.
by rewrite mxE ltr01.
Qed.

(** So the solver returns on such input. *)
Lemma strain_sphere_returns (np : numpy F) (weight paramsel : int)
    (phi theta u_phi u_theta s_phi s_theta : 'rV[F]_n) :
  (0 < n)%N ->
  (forall i, s_phi 0 i != 0) -> (forall i, s_theta 0 i != 0) ->
  let G := Gmat np paramsel (radians np phi) (radians np theta) in
  let C := covd s_phi s_theta in
  (forall x : 'cV[F]_(ncols paramsel), G *m x = 0 -> x = 0) ->
  (strain_sphere np phi theta u_phi u_theta s_phi s_theta weight paramsel).2 =
  Ok (finish np (mean (radians np theta)) (mean (radians np phi)) G
             (Mmat weight G C) C (dvec u_phi u_theta)).
Proof.
move=> n_gt0 phi_neq0 theta_neq0 G C inj.
have [mx ->] := strain_sphere_eq np phi theta u_phi u_theta s_phi s_theta
                  weight paramsel n_gt0.
by rewrite /solve finite_weights_covd // normal_unit.
Qed.

(** The normal equations: [m = M d] is the solution of
    [normal m = G^T W d]. *)
Lemma normal_equations (weight : int) (p : nat) (G : 'M[F]_(n + n, p))
    (C : 'M[F]_(n + n)) (d : 'cV[F]_(n + n)) (m : 'cV[F]_p) :
  normal weight G C \in unitmx ->
  normal weight G C *m m = GtW weight G C *m d -> Mmat weight G C *m d = m.
Proof. by move=> unit_A eq_m; rewrite /Mmat -mulmxA -eq_m mulKmx. Qed.

End NormalMatrix.

(** *** The collinearity warning *)

Section Collinear.

Variable F : realFieldType.
Variable np : numpy F.
Variable n : nat.
Implicit Types phi theta u_phi u_theta s_phi s_theta : 'rV[F]_n.
Implicit Types weight paramsel : int.

Lemma foldl_max_lt (e x : F) (s : seq F) :
  (foldl Order.max x s < e) = all (fun y => y < e) (x :: s).
Proof.
elim: s x => [|y s IH] x /=; first by rewrite andbT.
by rewrite IH /= gt_max andbA.
Qed.

(** [max(abs(resc)) < 1e-5] says that every residual is below [1e-5]. *)
Lemma py_max_lt (e : F) (v : 'cV[F]_n) :
  (0 < n)%N ->
  exists2 mx, py_max [seq `|v i 0| | i <- enum 'I_n] = Ok mx
            & (mx < e) = [forall i, `|v i 0| < e].
Proof.
case: n v => [|n'] // v _; rewrite enum_ordSl /=; eexists; first by [].
rewrite foldl_max_lt -(map_cons (fun i => `|v i 0|)) -enum_ordSl all_map.
by apply/allP/forallP => [all_lt i | all_lt i _] //; apply: all_lt; rewrite mem_enum.
Qed.

Lemma mean_const (x : 'rV[F]_n) (a : F) :
  (0 < n)%N -> (forall i, x 0 i = a) -> mean x = a.
Proof.
move=> n_gt0 x_a; rewrite /mean (eq_bigr (fun=> a)) // sumr_const card_ord.
by rewrite -mulr_natr mulfK // pnatr_eq0 -lt0n.
Qed.

(** Stations at one place leave a column of [G] empty, in every mode. *)
Lemma coincident_zero_column paramsel phi theta (a b : F) :
  (0 < n)%N -> (forall i, phi 0 i = a) -> (forall i, theta 0 i = b) ->
  exists j : 'I_(ncols paramsel),
    col j (Gmat np paramsel phi theta) = 0.
Proof.
move=> n_gt0 phi_a theta_b.
pose j0 : nat := if paramsel != 2 then 2%N else 0%N.
have lt_j0 : (j0 < ncols paramsel)%N.
  by rewrite /j0 /ncols; case: (paramsel != 2) => //=; case: (paramsel != 1).
exists (Ordinal lt_j0); apply/matrixP => k j; rewrite !mxE /=.
rewrite phi_a theta_b (mean_const n_gt0 phi_a) (mean_const n_gt0 theta_b).
rewrite /G_entry /j0 (subrr a) (subrr b).
by case: (paramsel != 2); case: (odd k) => /=; rewrite ?mulr0.
Qed.

Lemma coincident_singular weight paramsel phi theta (a b : F)
    (C : 'M[F]_(n + n)) :
  (0 < n)%N -> (forall i, phi 0 i = a) -> (forall i, theta 0 i = b) ->
  normal weight (Gmat np paramsel phi theta) C \notin unitmx.
Proof.
move=> n_gt0 phi_a theta_b.
have [j col0] := coincident_zero_column paramsel n_gt0 phi_a theta_b.
apply/negP => unit_A.
have: delta_mx j 0 = 0 :> 'cV[F]__.
  by rewrite -[LHS](mulKmx unit_A) /normal -mulmxA -colE col0 !mulmx0.
by move/matrixP/(_ j 0); rewrite !mxE !eqxx => /eqP; rewrite oner_eq0.
Qed.

(** Stations at one place: the warning is printed, with [colin = 2], and
    the inversion raises. *)
Lemma coincident_raises phi theta u_phi u_theta s_phi s_theta weight paramsel
    (a b : F) :
  (0 < n)%N -> (forall i, phi 0 i = a) -> (forall i, theta 0 i = b) ->
  (forall i, s_phi 0 i != 0) -> (forall i, s_theta 0 i != 0) ->
  strain_sphere np phi theta u_phi u_theta s_phi s_theta weight paramsel =
  ([:: CollinearWarning 2], Raise LinAlgError).
Proof.
move=> n_gt0 phi_a theta_b phi_neq0 theta_neq0.
have [mx ->] := strain_sphere_eq np phi theta u_phi u_theta s_phi s_theta
                  weight paramsel n_gt0.
have phi'_a i : radians np phi 0 i = a * np_pi np / 180 by rewrite mxE phi_a.
have theta'_b i : radians np theta 0 i = b * np_pi np / 180.
  by rewrite mxE theta_b.
congr (_, _).
  rewrite /colin_of (mean_const n_gt0 phi'_a).
  have -> : [forall i, `|radians np phi 0 i - a * np_pi np / 180| < eps F].
    by apply/forallP => i; rewrite phi'_a subrr normr0 eps_gt0.
  by [].
rewrite /solve finite_weights_covd //=.
by rewrite (negbTE (coincident_singular _ _ _ n_gt0 phi'_a theta'_b)).
Qed.

(** C6, as the code has it.  Once the geometry is flagged collinear -
    every residual of the line fit is below [1e-5], or all longitudes or
    all colatitudes are within [1e-5] of their mean - [strain_sphere]
    prints the warning and goes on to the solve without any guard: it
    returns its outputs when the normal matrix is invertible, and the
    inversion raises when it is singular. *)
Theorem collinear_warning_then_solve phi theta u_phi u_theta s_phi s_theta
    weight paramsel :
  (0 < n)%N ->
  let phi' := radians np phi in
  let theta' := radians np theta in
  let G := Gmat np paramsel phi' theta' in
  let C := covd s_phi s_theta in
  let run :=
    strain_sphere np phi theta u_phi u_theta s_phi s_theta weight paramsel in
  [|| [forall i, `|resc np phi' theta' i 0| < eps F],
      [forall i, `|phi' 0 i - mean phi'| < eps F]
    | [forall i, `|theta' 0 i - mean theta'| < eps F]] ->
  exists colin : nat,
    [/\ (colin == 1%N) || (colin == 2%N),
        run.1 = [:: CollinearWarning colin],
        finite_weights weight C -> normal weight G C \in unitmx ->
          exists out, run.2 = Ok out
      & finite_weights weight C -> normal weight G C \notin unitmx ->
          run.2 = Raise LinAlgError].
Proof.
move=> n_gt0 phi' theta' G C run flagged.
have [mx max_mx mx_lt] := py_max_lt (eps F) (resc np phi' theta') n_gt0.
have runE : run =
    (warning (colin_of mx phi' theta'),
     solve np weight paramsel phi' theta' u_phi u_theta s_phi s_theta).
  by rewrite /run /strain_sphere max_mx.
exists (colin_of mx phi' theta'); rewrite runE /=.
have colin12 : (colin_of mx phi' theta' == 1%N) || (colin_of mx phi' theta' == 2%N).
  by case/or3P: flagged => [c1 | c2 | c2];
     rewrite /colin_of mx_lt ?c1 ?c2 ?orbT //; case: ifP.
split=> //; first by rewrite /warning colin12.
- by move=> finite unit_A; rewrite /solve finite unit_A /=; eexists.
- by move=> finite /negbTE sing_A; rewrite /solve finite -/G -/C sing_A.
Qed.

End Collinear.

(** ** The example stations *)

(** Case analysis on an index of a small matrix. *)
Ltac ord_cases j :=
  repeat (let j' := fresh "j" in
          case: (unliftP ord0 j) => [j' -> | ->]; last first;
          [|clear j; rename j' into j]);
  try by case: j.

Section Equator.

Variable F : realFieldType.
Variable np : numpy F.

Hypothesis sin_half_pi : np_sin np (np_pi np / 2) = 1.
Hypothesis cos_half_pi : np_cos np (np_pi np / 2) = 0.
Hypothesis pi_neq0 : np_pi np != 0.

Local Notation pi := (np_pi np).
Local Notation phi' := (radians np (phi_ex F)).  
Local Notation theta' := (radians np (theta_ex F)).

Lemma mean_phi_ex : mean phi' = 0.
Proof.
rewrite /mean !big_ord_recl big_ord0 !mxE /=.
by field.
Qed.

Lemma mean_theta_ex : mean theta' = pi / 2.
Proof.
rewrite /mean !big_ord_recl big_ord0 !mxE /=.
by field.
Qed.

Ltac row_equation eqs k :=
  have := eqs k;
  rewrite mxE !big_ord_recl big_ord0 !mxE mean_phi_ex mean_theta_ex
          /G_entry /= ?sin_half_pi ?cos_half_pi.

Lemma cancel_pi (y : F) : pi * y = 0 -> y = 0.
Proof. by move/eqP; rewrite mulf_eq0 (negbTE pi_neq0) /= => /eqP. Qed.

Lemma cancel_r0 (y : F) : r0 F * y = 0 -> y = 0.
Proof. by move/eqP; rewrite mulf_eq0 (negbTE (r0_neq0 F)) /= => /eqP. Qed.

Lemma rot_ex_inj (x : 'cV[F]_(ncols 1)) :
  Gmat np 1 phi' theta' *m x = 0 -> x = 0.
Proof.
move=> Gx0.
have eqs k : (Gmat np 1 phi' theta' *m x) k 0 = 0 by rewrite Gx0 mxE.
row_equation eqs (ord0 : 'I_(3 + 3)) => E0.
row_equation eqs (lift ord0 ord0 : 'I_(3 + 3)) => E1.
row_equation eqs (lift ord0 (lift ord0 (lift ord0 (lift ord0 ord0))) : 'I_(3 + 3)) => E4.
row_equation eqs (lift ord0 (lift ord0 (lift ord0 (lift ord0 (lift ord0 ord0)))) : 'I_(3 + 3)) => E5.
set x0 := x ord0 0 in E0 E1 E4 E5.
set x1 := x (lift ord0 ord0) 0 in E0 E1 E4 E5.
set x2 := x (lift ord0 (lift ord0 ord0)) 0 in E0 E1 E4 E5.
have x0_0 : x0 = 0 by apply: cancel_r0; lra.
have x1_0 : x1 = 0 by apply: cancel_r0; lra.
have x2_0 : x2 = 0 by apply: cancel_pi; apply: cancel_r0; lra.
apply/matrixP => j i; rewrite ord1 mxE.
by ord_cases j.
Qed.

Lemma both_ex_inj (x : 'cV[F]_(ncols 0)) :
  Gmat np 0 phi' theta' *m x = 0 -> x = 0.
Proof.
move=> Gx0.
have eqs k : (Gmat np 0 phi' theta' *m x) k 0 = 0 by rewrite Gx0 mxE.
row_equation eqs (ord0 : 'I_(3 + 3)) => E0.
row_equation eqs (lift ord0 ord0 : 'I_(3 + 3)) => E1.
row_equation eqs (lift ord0 (lift ord0 ord0) : 'I_(3 + 3)) => E2.
row_equation eqs (lift ord0 (lift ord0 (lift ord0 ord0)) : 'I_(3 + 3)) => E3.
row_equation eqs (lift ord0 (lift ord0 (lift ord0 (lift ord0 ord0))) : 'I_(3 + 3)) => E4.
row_equation eqs (lift ord0 (lift ord0 (lift ord0 (lift ord0 (lift ord0 ord0)))) : 'I_(3 + 3)) => E5.
set x0 := x ord0 0 in E0 E1 E2 E3 E4 E5.
set x1 := x (lift ord0 ord0) 0 in E0 E1 E2 E3 E4 E5.
set x2 := x (lift ord0 (lift ord0 ord0)) 0 in E0 E1 E2 E3 E4 E5.
set x3 := x (lift ord0 (lift ord0 (lift ord0 ord0))) 0 in E0 E1 E2 E3 E4 E5.
set x4 := x (lift ord0 (lift ord0 (lift ord0 (lift ord0 ord0)))) 0
  in E0 E1 E2 E3 E4 E5.
set x5 := x (lift ord0 (lift ord0 (lift ord0 (lift ord0 (lift ord0 ord0))))) 0
  in E0 E1 E2 E3 E4 E5.
have x0_0 : x0 = 0 by apply: cancel_r0; lra.
have x1_0 : x1 = 0 by apply: cancel_r0; lra.
have x2_0 : x2 = 0 by apply: cancel_pi; apply: cancel_r0; lra.
have x3_0 : x3 = 0 by apply: cancel_pi; apply: cancel_r0; lra.
have x4_0 : x4 = 0 by apply: cancel_pi; apply: cancel_r0; lra.
have x5_0 : x5 = 0 by apply: cancel_pi; apply: cancel_r0; lra.
apply/matrixP => j i; rewrite ord1 mxE.
by ord_cases j.
Qed.

Local Notation G := (Gmat np 1 phi' theta').
Local Notation mstar := (mstar np).
Local Notation mstar2 := (mstar2 np).
Local Notation phi_ex := (phi_ex F).
Local Notation theta_ex := (theta_ex F).
Local Notation ones_ex := (ones_ex F).
Local Notation u_phi_1 := (u_phi_1 F).
Local Notation u_theta_1 := (u_theta_1 F).
Local Notation u_phi_2 := (u_phi_2 F).
Local Notation u_theta_2 := (u_theta_2 F).

Lemma dvec_vec3 (a b c a' b' c' : F) :
  dvec (vec3 a b c) (vec3 a' b' c') =
  \col_(k < 3 + 3) nth 0 [:: a; b; c; a'; b'; c'] k.
Proof.
apply/matrixP => k j; rewrite !mxE.
by case: splitP => i ->; rewrite mxE //; case: i => [[|[|[|i]]]].
Qed.

Ltac ex_entries :=
  rewrite !(mxE, big_ord_recl, big_ord0) /= ?mean_phi_ex ?mean_theta_ex
          /G_entry /= ?sin_half_pi ?cos_half_pi.

Lemma G_explicit :
  G = \matrix_(k < 3 + 3, j < ncols 1) nth 0 (nth [::] (G_rows np) k) j.
Proof.
by apply/matrixP => k j; ord_cases k; ord_cases j; ex_entries; field.
Qed.

Ltac mx_entries := rewrite !(mxE, big_ord_recl, big_ord0) /=.

Lemma G_mstar :
  G *m mstar = \col_(k < 3 + 3) nth 0 [:: 1; -1; 1; 1; -2; 0] k.
Proof.
have r0_neq0 := r0_neq0 F; rewrite G_explicit.
by apply/matrixP => k j; rewrite ord1; ord_cases k; mx_entries; field.
Qed.

Let C := covd ones_ex ones_ex.

Lemma ones_neq0 i : ones_ex 0 i != 0.
Proof. by rewrite mxE; ord_cases i; rewrite /= oner_neq0. Qed.

Lemma unit_rot_ex weight : normal weight G C \in unitmx.
Proof.
by apply: normal_unit rot_ex_inj => //; exact: ones_neq0.
Qed.

Lemma m_run1 : Mmat 0 G C *m dvec u_phi_1 u_theta_1 = mstar.
Proof.
apply: normal_equations (unit_rot_ex 0) _.
by rewrite /normal /GtW /= -mulmxA G_mstar dvec_vec3.
Qed.

Lemma G_mstar2 :
  G *m mstar2 =
  \col_(k < 3 + 3) nth 0 [:: - (5 / 8); 5 / 8; - (5 / 8); - (5 / 8); 5 / 4; 0] k.
Proof.
have r0_neq0 := r0_neq0 F; rewrite G_explicit.
by apply/matrixP => k j; rewrite ord1; ord_cases k; mx_entries; field.
Qed.

Lemma m_run2 : Mmat 0 G C *m dvec u_phi_2 u_theta_2 = mstar2.
Proof.
apply: normal_equations (unit_rot_ex 0) _.
rewrite /normal /GtW /= dvec_vec3 -mulmxA G_mstar2 G_explicit.
by apply/matrixP => k j; rewrite ord1; ord_cases k; mx_entries; field.
Qed.

Lemma vget_col3 (a b c : F) (i : nat) :
  (i < 3)%N -> vget (\col_(j < ncols 1) nth 0 [:: a; b; c] j) i =
               nth 0 [:: a; b; c] i.
Proof. by move=> lt_i; rewrite /vget insubT mxE. Qed.

Lemma solve_rot_ex weight u_phi u_theta :
  solve np weight 1 phi' theta' u_phi u_theta ones_ex ones_ex =
  Ok (finish np (mean theta') (mean phi') G (Mmat weight G C) C
             (dvec u_phi u_theta)).
Proof.
by rewrite /solve finite_weights_covd ?unit_rot_ex //; exact: ones_neq0.
Qed.

Lemma strain_sphere_rot_ex weight u_phi u_theta :
  (strain_sphere np phi_ex theta_ex u_phi u_theta ones_ex
                 ones_ex weight 1).2 =
  Ok (finish np (mean theta') (mean phi') G (Mmat weight G C) C
             (dvec u_phi u_theta)).
Proof.
have [mx ->] := strain_sphere_eq np phi_ex theta_ex u_phi u_theta
                  ones_ex ones_ex weight 1 isT.
exact: solve_rot_ex.
Qed.

Let out1 :=
  finish np (mean theta') (mean phi') G (Mmat 0 G C) C
         (dvec u_phi_1 u_theta_1).

Let out2 :=
  finish np (mean theta') (mean phi') G (Mmat 0 G C) C
         (dvec u_phi_2 u_theta_2).

Lemma predicted_run1 : u_phi_p out1 = u_phi_2 /\ u_theta_p out1 = u_theta_2.
Proof.
rewrite /out1 /= m_run1 G_mstar.
by split; apply/matrixP => i j; rewrite ord1; ord_cases j; rewrite !mxE.
Qed.

Lemma omega_r_run1 : omega_r out1 = Fin (180 / (r0 F * pi)).
Proof. by rewrite /out1 /= m_run1 /unpack /= vget_col3. Qed.

Lemma omega_r_run2 : omega_r out2 = Fin (- (5 * 180) / (8 * r0 F * pi)).
Proof. by rewrite /out2 /= m_run2 /unpack /= vget_col3. Qed.

Lemma strain_ex_inj (x : 'cV[F]_(ncols 2)) :
  Gmat np 2 phi' theta' *m x = 0 -> x = 0.
Proof.
move=> Gx0.
have eqs k : (Gmat np 2 phi' theta' *m x) k 0 = 0 by rewrite Gx0 mxE.
row_equation eqs (ord0 : 'I_(3 + 3)) => E0.
row_equation eqs (lift ord0 (lift ord0 ord0) : 'I_(3 + 3)) => E2.
row_equation eqs (lift ord0 (lift ord0 (lift ord0 (lift ord0 (lift ord0 ord0)))) : 'I_(3 + 3)) => E5.
set x0 := x ord0 0 in E0 E2 E5.
set x1 := x (lift ord0 ord0) 0 in E0 E2 E5.
set x2 := x (lift ord0 (lift ord0 ord0)) 0 in E0 E2 E5.
have cancel y : r0 F * (pi * y) = 0 -> y = 0.
  by move/cancel_r0/cancel_pi.
have x0_0 : x0 = 0 by apply: cancel; lra.
have x1_0 : x1 = 0 by apply: cancel; lra.
have x2_0 : x2 = 0 by apply: cancel; lra.
apply/matrixP => j i; rewrite ord1 mxE.
by ord_cases j.
Qed.

(** On the example, with unit uncertainties, every mode returns. *)
Lemma strain_sphere_ex weight paramsel u_phi u_theta :
  paramsel \in [:: 0; 1; 2] ->
  (strain_sphere np phi_ex theta_ex u_phi u_theta ones_ex ones_ex weight
                 paramsel).2 =
  Ok (finish np (mean theta') (mean phi') (Gmat np paramsel phi' theta')
             (Mmat weight (Gmat np paramsel phi' theta') C) C
             (dvec u_phi u_theta)).
Proof.
move=> mode; apply: strain_sphere_returns => //; try exact: ones_neq0.
move: mode; rewrite !inE => /or3P [] /eqP ->.
- exact: both_ex_inj.
- exact: rot_ex_inj.
- exact: strain_ex_inj.
Qed.


(** The misfit of the two runs. *)
Lemma covd_ones : C = 1%:M.
Proof.
rewrite /C (@covd_const _ _ 1) ?expr1n // => i;
  by rewrite mxE; ord_cases i.
Qed.

Lemma chi2_run1 : lstsq_exact np -> chi2 out1 = Fin 0.
Proof.
move=> lstsq_ok; rewrite /out1 chi2_finish ?covd_unit //; try exact: ones_neq0.
rewrite m_run1 G_mstar dvec_vec3 covd_ones invmx1 mulmx1.
by congr Fin; mx_entries; field.
Qed.

Lemma chi2_run2 : lstsq_exact np -> chi2 out2 = Fin (13 / 16).
Proof.
move=> lstsq_ok; rewrite /out2 chi2_finish ?covd_unit //; try exact: ones_neq0.
rewrite m_run2 G_mstar2 dvec_vec3 covd_ones invmx1 mulmx1.
by congr Fin; mx_entries; field.
Qed.

(** On the example, the predicted velocities of a first run fed back as
    observations give other model parameters: the rotation rate about the
    vertical goes from [180 / (r0 pi)] to [- 5/8] of it, and the misfit
    from 0 to 13/16. *)
Lemma roundtrip_example :
  lstsq_exact np ->
  exists out1 out2 : outputs F 3,
    [/\ (strain_sphere np phi_ex theta_ex u_phi_1 u_theta_1
                       ones_ex ones_ex 0 1).2 = Ok out1,
        (strain_sphere np phi_ex theta_ex (u_phi_p out1)
                       (u_theta_p out1) ones_ex ones_ex 0 1).2
          = Ok out2,
        chi2 out1 = Fin 0 /\ chi2 out2 = Fin (13 / 16),
        omega_r out1 = Fin (180 / (r0 F * pi)) /\
        omega_r out2 = Fin (- (5 * 180) / (8 * r0 F * pi))
      & omega_r out2 <> omega_r out1].
Proof.
move=> lstsq_ok; exists out1, out2; have [-> ->] := predicted_run1.
split; rewrite ?strain_sphere_rot_ex ?omega_r_run1 ?omega_r_run2 //.
  by rewrite chi2_run1 ?chi2_run2.
case=> /eqP; rewrite -subr_eq0; apply/negP.
have -> : - (5 * 180) / (8 * r0 F * pi) - 180 / (r0 F * pi) =
          - (13 * 180 / 8) / (r0 F * pi).
  by have r0_neq0 := r0_neq0 F; field.
rewrite mulf_eq0 invr_eq0 mulf_eq0 (negbTE (r0_neq0 F)) (negbTE pi_neq0) /=.
by rewrite orbF oppr_eq0; apply: lt0r_neq0; lra.
Qed.

End Equator.

(** ** The code on concrete input *)

Section Concrete.

Local Notation phi_ex := (phi_ex rat).
Local Notation theta_ex := (theta_ex rat).
Local Notation ones_ex := (ones_ex rat).
Local Notation zeros_ex := (zeros_ex rat).
Local Notation u_phi_1 := (u_phi_1 rat).
Local Notation u_theta_1 := (u_theta_1 rat).

Lemma pi_rat_gt0 : 0 < pi_rat.
Proof. by rewrite /pi_rat; lra. Qed.

Lemma pi_rat_neq0 : np_pi np_rat != 0.
Proof. exact: lt0r_neq0 pi_rat_gt0. Qed.

Lemma sin_rat : np_sin np_rat (np_pi np_rat / 2) = 1.
Proof. by have := pi_rat_neq0; rewrite [np_sin _]/= [np_pi _]/= => pi0; field. Qed.

Lemma cos_rat : np_cos np_rat (np_pi np_rat / 2) = 0.
Proof. by have := pi_rat_neq0; rewrite [np_cos _]/= [np_pi _]/= => pi0; field. Qed.

Lemma lstsq_rat : lstsq_exact np_rat.
Proof. by move=> p A b unit_A; rewrite /= pinvmxE. Qed.

Lemma strain_sphere_rat weight paramsel u_phi u_theta :
  paramsel \in [:: 0; 1; 2] ->
  (strain_sphere np_rat phi_ex theta_ex u_phi u_theta ones_ex ones_ex weight
                 paramsel).2 =
  Ok (finish np_rat (mean (radians np_rat theta_ex))
             (mean (radians np_rat phi_ex))
             (Gmat np_rat paramsel (radians np_rat phi_ex)
                   (radians np_rat theta_ex))
             (Mmat weight (Gmat np_rat paramsel (radians np_rat phi_ex)
                                (radians np_rat theta_ex))
                   (covd ones_ex ones_ex))
             (covd ones_ex ones_ex) (dvec u_phi u_theta)).
Proof. exact: strain_sphere_ex sin_rat cos_rat pi_rat_neq0 _ _ _ _. Qed.

(** C1, on the code.  Three stations at longitudes 1, -1, 0 and
    colatitudes 91, 91, 88 degrees, observed velocities
    [u_phi = (1, -1, 1)] and [u_theta = (1, -2, 0)], unit uncertainties, no
    weighting, rotation-only mode: the first run fits the data exactly
    ([chi2 = 0]), and the second run, on the predicted velocities of the
    first, returns another rotation rate and [chi2 = 13/16]: the round
    trip does not give the parameters back. *)
Theorem roundtrip_fails :
  exists out1 out2 : outputs rat 3,
    [/\ (strain_sphere np_rat phi_ex theta_ex u_phi_1 u_theta_1
                       ones_ex ones_ex 0 1).2 = Ok out1,
        (strain_sphere np_rat phi_ex theta_ex (u_phi_p out1)
                       (u_theta_p out1) ones_ex ones_ex 0 1).2 = Ok out2,
        chi2 out1 = Fin 0 /\ chi2 out2 = Fin (13 / 16)
      & omega_r out2 <> omega_r out1].
Proof.
have [out1 [out2 [run1 run2 misfit _ differ]]] :=
  roundtrip_example sin_rat cos_rat pi_rat_neq0 lstsq_rat.
by exists out1, out2.
Qed.

Lemma ones_rat i : ones_ex 0 i = 1.
Proof. by rewrite mxE; ord_cases i. Qed.

Lemma ones_rat_neq0 i : ones_ex 0 i != 0.
Proof. by rewrite ones_rat. Qed.

Lemma run_rat weight paramsel u_phi u_theta :
  paramsel \in [:: 0; 1; 2] ->
  let run := strain_sphere np_rat phi_ex theta_ex u_phi u_theta ones_ex
                           ones_ex weight paramsel in
  run = (run.1,
         Ok (finish np_rat (mean (radians np_rat theta_ex))
               (mean (radians np_rat phi_ex))
               (Gmat np_rat paramsel (radians np_rat phi_ex)
                     (radians np_rat theta_ex))
               (Mmat weight (Gmat np_rat paramsel (radians np_rat phi_ex)
                                  (radians np_rat theta_ex))
                     (covd ones_ex ones_ex))
               (covd ones_ex ones_ex) (dvec u_phi u_theta))).
Proof. by move=> mode run; rewrite [LHS]surjective_pairing strain_sphere_rat. Qed.

(** Witness of C2: the example, with unit uncertainties. *)
Lemma weighted_unweighted_witness :
  strain_sphere np_rat phi_ex theta_ex u_phi_1 u_theta_1 ones_ex ones_ex 1 0 =
  strain_sphere np_rat phi_ex theta_ex u_phi_1 u_theta_1 ones_ex ones_ex 0 0.
Proof.
by apply: (@weighted_unweighted_coincide rat np_rat 3 1) => //; exact: ones_rat.
Defined.

(** Witness of C3: the example, unweighted, in rotation-only mode. *)
Lemma chi2_formula_witness :
  exists (msgs : seq message) (out : outputs rat 3),
    strain_sphere np_rat phi_ex theta_ex u_phi_1 u_theta_1 ones_ex ones_ex 0 1
      = (msgs, Ok out) /\
    chi2 out =
    Fin (((dvec u_phi_1 u_theta_1
           - Gmat np_rat 1 (radians np_rat phi_ex) (radians np_rat theta_ex)
             *m (Mmat 0 (Gmat np_rat 1 (radians np_rat phi_ex)
                              (radians np_rat theta_ex))
                      (covd ones_ex ones_ex) *m dvec u_phi_1 u_theta_1))^T
          *m invmx (covd ones_ex ones_ex)
          *m (dvec u_phi_1 u_theta_1
              - Gmat np_rat 1 (radians np_rat phi_ex) (radians np_rat theta_ex)
                *m (Mmat 0 (Gmat np_rat 1 (radians np_rat phi_ex)
                                 (radians np_rat theta_ex))
                         (covd ones_ex ones_ex) *m dvec u_phi_1 u_theta_1)))
           0 0 / (2 * 3)%:R).
Proof.
have run_ok := @run_rat 0 1 u_phi_1 u_theta_1 isT.
eexists; eexists; split; first exact: run_ok.
exact: (chi2_formula lstsq_rat ones_rat_neq0 ones_rat_neq0 run_ok).
Defined.

(** C4 as stated fails: on the example the uncertainties of the unused
    strain components are 0 in rotation-only mode, and the uncertainties
    of the unused translation rates are 0 in strain-only mode. *)
Lemma unused_uncertainties_not_nan :
  (exists out : outputs rat 3,
     [/\ (strain_sphere np_rat phi_ex theta_ex u_phi_1 u_theta_1 ones_ex
                        ones_ex 0 1).2 = Ok out,
         s_e_phiphi out = Fin 0 & s_e_phiphi out <> NaN])
  /\
  (exists out : outputs rat 3,
     [/\ (strain_sphere np_rat phi_ex theta_ex u_phi_1 u_theta_1 ones_ex
                        ones_ex 0 2).2 = Ok out,
         s_U_theta out = Fin 0 & s_U_theta out <> NaN]).
Proof.
by split; eexists; (split; first exact: strain_sphere_rat);
   rewrite /= /uncertain.
Qed.

(** Witness of C4: the example in rotation-only mode. *)
Lemma unused_outputs_witness :
  exists (msgs : seq message) (out : outputs rat 3),
    strain_sphere np_rat phi_ex theta_ex u_phi_1 u_theta_1 ones_ex ones_ex 0 1
      = (msgs, Ok out) /\
    [/\ e_phiphi out = NaN, e_thetaphi out = NaN & e_thetatheta out = NaN] /\
    [/\ s_e_phiphi out = Fin 0, s_e_thetaphi out = Fin 0
      & s_e_thetatheta out = Fin 0].
Proof.
have run_ok := @run_rat 0 1 u_phi_1 u_theta_1 isT.
eexists; eexists; split; first exact: run_ok.
exact: (proj1 (unused_outputs run_ok) erefl).
Defined.

(** Witness of C5: the example with the mode selector 0, as [compute]
    calls the solver. *)
Lemma default_mode_witness :
  exists (msgs : seq message) (out : outputs rat 3),
    strain_sphere np_rat phi_ex theta_ex u_phi_1 u_theta_1 ones_ex ones_ex 1 0
      = (msgs, Ok out) /\
    ncols 0 = 6%N /\ ~~ isnan (e_phiphi out) /\ ~~ isnan (omega_r out).
Proof.
have run_ok := @run_rat 1 0 u_phi_1 u_theta_1 isT.
have [[cols _] _ outs] :=
  @default_mode_solves_both rat np_rat 3 phi_ex theta_ex u_phi_1 u_theta_1
    ones_ex ones_ex 1 0 isT isT.
have [[e_pp _ _ om_r] _] := outs _ _ run_ok.
by eexists; eexists; split; [exact: run_ok | rewrite e_pp om_r].
Defined.

(** C6 as stated fails: three stations at one place are flagged collinear,
    and the solver then raises instead of returning. *)
Lemma coincident_stations_raise :
  strain_sphere np_rat zeros_ex zeros_ex u_phi_1 u_theta_1 ones_ex ones_ex 1 0
  = ([:: CollinearWarning 2], Raise LinAlgError).
Proof.
apply: (@coincident_raises _ _ _ _ _ _ _ _ _ _ _ 0 0) => // i;
  by rewrite ?ones_rat // mxE; ord_cases i.
Qed.

(** Witness of C6: the same three stations. *)
Lemma collinear_warning_witness :
  exists colin : nat,
    (colin == 1%N) || (colin == 2%N) /\
    (strain_sphere np_rat zeros_ex zeros_ex u_phi_1 u_theta_1 ones_ex ones_ex
                   1 0).1 = [:: CollinearWarning colin].
Proof.
have zeros i : radians np_rat zeros_ex 0 i = 0.
  by rewrite !mxE; ord_cases i; rewrite /= !mul0r.
have flagged :
    [|| [forall i, `|resc np_rat (radians np_rat zeros_ex)
                          (radians np_rat zeros_ex) i 0| < eps rat],
        [forall i, `|radians np_rat zeros_ex 0 i
                     - mean (radians np_rat zeros_ex)| < eps rat]
      | [forall i, `|radians np_rat zeros_ex 0 i
                     - mean (radians np_rat zeros_ex)| < eps rat]].
  apply/or3P/Or32/forallP => i.
  by rewrite (mean_const (n := 3) (a := 0) isT zeros) zeros subrr normr0 eps_gt0.
have [colin [colin12 printed _ _]] :=
  @collinear_warning_then_solve rat np_rat 3 zeros_ex zeros_ex u_phi_1
    u_theta_1 ones_ex ones_ex 1 0 isT flagged.
by exists colin.
Defined.

End Concrete.

(** ** [compute]: what is handed to the solver *)

Section ComputeFacts.

Variable F : realFieldType.

(** Whatever the velocity field, the solver is called with
    [latitude - 90] for [theta], with weighting and in the default mode. *)
Lemma triangle_inputs_args (myVelfield : Velfield F)
    (v1 v2 v3 : point F) (a : strain_args F) :
  triangle_inputs myVelfield (v1, v2, v3) = Ok a ->
  [/\ a_phi a = vec3 v1.1 v2.1 v3.1,
      a_theta a = vec3 (v1.2 - 90) (v2.2 - 90) (v3.2 - 90),
      a_weight a = 1 & a_paramsel a = 0].
Proof.
rewrite /triangle_inputs.
do 12![case: (at_index _ _) => [?|] //=].
case=> <- /=; split=> //.
by apply/matrixP => i j; rewrite !mxE; ord_cases j.
Qed.

End ComputeFacts.

Section ComputeExample.

(** C7, on the code.  For the three example stations, at latitudes -1, -1
    and 2 degrees, [compute] hands the solver [theta = (-91, -91, -88)],
    which is [latitude - 90], and not the colatitudes
    [90 - latitude = (91, 91, 88)]. *)
Theorem compute_passes_latitude_minus_90 :
  exists a : strain_args rat,
    [/\ triangle_inputs vf_ex tri_ex = Ok a,
        a_theta a = vec3 (-91) (-91) (-88),
        a_theta a <> vec3 (90 - -1) (90 - -1) (90 - 2)
      & a_weight a = 1 /\ a_paramsel a = 0].
Proof.
have [a inputs] : exists a, triangle_inputs vf_ex tri_ex = Ok a.
  by rewrite /triangle_inputs /tri_ex; eexists.
have [_ theta_a weight_a paramsel_a] := triangle_inputs_args inputs.
have theta_E : a_theta a = vec3 (-91) (-91) (-88).
  rewrite theta_a; apply/matrixP => i j; rewrite !mxE.
  by ord_cases j; rewrite /=; lra.
exists a; split; [exact: inputs | exact: theta_E | | by []].
rewrite theta_E => /matrixP /(_ 0 0).
by rewrite !mxE /= => eq_theta; clear -eq_theta; lra.
Qed.

End ComputeExample.

(** ** The time-series tools on concrete input *)

Section TimeSeriesExamples.

(** Witness of C8: the GPS example and one offset, at its second epoch. *)
Lemma remove_offsets_witness :
  exists newData : Timeseries rat,
    [/\ remove_offsets gps_ex offsets_ex = Ok newData,
        dtarray newData = dtarray gps_ex
      & nth NaN (dE newData) 2 =
        offset_removed offsets_ex (@e_offsets rat) 30 (Fin 8)].
Proof.
have [newData [returned [_ _ dates _] _ displaced _]] :=
  @remove_offsets_spec rat gps_ex offsets_ex isT isT isT.
have [east _ _] := displaced 2%N isT.
by exists newData.
Defined.

Lemma pair_ex :
  pair_GPSGRACE float_times_ex interp_ex gps_ex grace_ex = Ok paired_ex.
Proof. by []. Qed.

(** Witness of C9: the GPS and GRACE examples; one GPS epoch is strictly
    inside the GRACE span. *)
Lemma pair_GPSGRACE_witness :
  exists idx : seq nat,
    [/\ subseq idx (iota 0 (size (dtarray gps_ex))),
        p_dtarray paired_ex = [seq nth 0 (dtarray gps_ex) i | i <- idx]
      & (size (p_dtarray paired_ex) <= size (dtarray gps_ex))%N].
Proof.
have [idx [ordered epochs _ shorter _]] :=
  @pair_GPSGRACE_spec rat float_times_ex interp_ex gps_ex grace_ex paired_ex
    pair_ex.
by exists idx.
Defined.

Lemma one_lt_us_per_day : 1 < us_per_day.
Proof. by rewrite /us_per_day; lra. Qed.

Lemma windows_ex :
  before_indeces [:: 0; 1] (0, 0) 10 = [:: 0%N; 1%N] /\
  after_indeces [:: 0; 1] (0, 0) 10 = [:: 0%N; 1%N].
Proof.
have day_gt0 := us_per_day_gt0; have day_gt1 := one_lt_us_per_day.
split; apply/all_filterP/allP => i; rewrite mem_iota => /andP [_];
  case: i => [|[|i]] // _; lazy zeta; rewrite [nth _ _ _]/= [(0, 0).1]/=
    [(0, 0).2]/= ?before_window ?after_window; apply/andP; split; lra.
Qed.

(** Witness of C10: two samples, both in both windows. *)
Lemma fit_single_offset_witness :
  fit_single_offset [:: 0; 1] [:: Fin 1; Fin (3 : rat)] (0, 0) 10 =
  Ok (nanmean [seq nth NaN [:: Fin 1; Fin (3 : rat)] i
                 | i <- after_indeces [:: 0; 1] (0, 0) 10]
      -. nanmean [seq nth NaN [:: Fin 1; Fin (3 : rat)] i
                    | i <- before_indeces [:: 0; 1] (0, 0) 10]).
Proof.
have [before_ex after_ex] := windows_ex.
apply: (proj2 (@fit_single_offset_spec rat [:: 0; 1] [:: Fin 1; Fin 3] (0, 0)
                 10)); by rewrite ?before_ex ?after_ex.
Defined.

End TimeSeriesExamples.
